(** * love.cpp: the launcher of the LOVE executable

    A shallow embedding of [src/love.cpp]: the argument preprocessor
    [get_app_arguments], the four SDL application callbacks
    [SDL_AppInit], [SDL_AppIterate], [SDL_AppEvent] and [SDL_AppQuit], and
    the part of the Lua C API they are written against.

    The Lua interpreter, the LOVE runtime library and the platform queries
    are outside this file of the repository.  They are kept abstract: a
    record [Runtime] gathers what the launcher calls, and every statement
    below is quantified over it. *)

From Stdlib Require Import ZArith Ascii String List Lia.
From stdpp Require Import base option list strings gmap.
Import ListNotations.

Local Open Scope string_scope.
Local Open Scope Z_scope.
Local Open Scope list_scope.

(** ** C strings *)

Module CString.

(** The line feed written [\n] in the C string literals. *)
Definition nl : string := String (ascii_of_nat 10) EmptyString.

Definition code (c : ascii) : Z := Z.of_nat (nat_of_ascii c).

(** [strncmp(a, b, n)]: the difference of the first pair of bytes that
    differ among the first [n], the end of a string reading as the
    terminating NUL; 0 when there is none. *)
Fixpoint strncmp (a b : string) (n : nat) : Z :=
  match n with
  | O => 0
  | S n' =>
      match a, b with
      | EmptyString, EmptyString => 0
      | EmptyString, String d _ => 0 - code d
      | String c _, EmptyString => code c - 0
      | String c a', String d b' =>
          if Z.eqb (code c) (code d)
          then (if Z.eqb (code c) 0 then 0 else strncmp a' b' n')
          else code c - code d
      end
  end.

(** [strcmp(a, b)]: as [strncmp] without the bound. *)
Fixpoint strcmp (a b : string) : Z :=
  match a, b with
  | EmptyString, EmptyString => 0
  | EmptyString, String d _ => 0 - code d
  | String c _, EmptyString => code c - 0
  | String c a', String d b' =>
      if Z.eqb (code c) (code d)
      then (if Z.eqb (code c) 0 then 0 else strcmp a' b')
      else code c - code d
  end.

(** A Rocq string stands for a C string when it holds no NUL. *)
Fixpoint no_nul (s : string) : bool :=
  match s with
  | EmptyString => true
  | String c s' => negb (code c =? 0) && no_nul s'
  end.

Definition cstring (s : string) : Prop := no_nul s = true.

(** [printf] restricted to the [%s] conversion, the only one the
    launcher uses: each [%s] is replaced by the next argument. *)
Fixpoint format (fmt : string) (args : list string) : string :=
  match fmt with
  | String "%" (String "s" rest) =>
      match args with
      | a :: args' => a +:+ format rest args'
      | [] => format rest []
      end
  | String c rest => String c (format rest args)
  | EmptyString => EmptyString
  end.

End CString.

Import CString.

(** ** The Lua state, as the C API shows it

    The launcher sees the interpreter only through [lua.h].  A state is
    the API stack (bottom first, so that index [1] is the head and index
    [-1] the last element), the tables reachable from it, and the global
    table.  Tables are reference values: two stack slots holding the same
    [VTable r] denote one table. *)

Module Lua.

Inductive value : Type :=
| VNil
| VBoolean (b : bool)
| VNumber (n : Z)
| VString (s : string)
| VTable (r : nat)
| VCFunction (name : string)
| VFunction (id : nat)
| VThread (id : nat).

#[global] Instance value_eq_dec : EqDecision value.
Proof. solve_decision. Defined.

Definition is_nil (v : value) : bool :=
  match v with VNil => true | _ => false end.

(** A table: its integer keys and its string keys. *)
Record table : Type := mkTable {
  tarray : gmap Z value;
  tfields : gmap string value
}.

Definition empty_table : table := mkTable ∅ ∅.

Record lua_State : Type := mkState {
  stack : list value;
  heap : gmap nat table;
  globals : gmap string value;
  nthreads : nat
}.

Definition with_stack (L : lua_State) (s : list value) : lua_State :=
  mkState s (heap L) (globals L) (nthreads L).

Definition with_heap (L : lua_State) (h : gmap nat table) : lua_State :=
  mkState (stack L) h (globals L) (nthreads L).

(** Storing nil under a key removes the key. *)
Definition store {K} `{Countable K} (k : K) (v : value) (m : gmap K value)
  : gmap K value :=
  if is_nil v then delete k m else <[k := v]> m.

Definition fetch {K} `{Countable K} (k : K) (m : gmap K value) : value :=
  default VNil (m !! k).

(** [lua_gettop]. *)
Definition lua_gettop (L : lua_State) : Z := Z.of_nat (length (stack L)).

(** The stack position (from 0) an acceptable index denotes. *)
Definition index2pos (L : lua_State) (idx : Z) : option nat :=
  if 0 <? idx then Some (Z.to_nat (idx - 1))
  else if (idx <? 0) && (0 <=? lua_gettop L + idx)
       then Some (Z.to_nat (lua_gettop L + idx))
       else None.

(** The value at an index; nil where the index denotes no slot. *)
Definition index2value (L : lua_State) (idx : Z) : value :=
  match index2pos L idx with
  | Some i => default VNil (stack L !! i)
  | None => VNil
  end.

Definition push (v : value) (L : lua_State) : lua_State :=
  with_stack L (stack L ++ [v]).

(** [lua_settop]: a non-negative index is the new depth, the stack being
    cut or filled with nil; a negative one counts from the top. *)
Definition lua_settop (L : lua_State) (idx : Z) : lua_State :=
  if 0 <=? idx
  then let n := Z.to_nat idx in
       with_stack L (take n (stack L) ++ replicate (n - length (stack L)) VNil)
  else with_stack L (take (Z.to_nat (lua_gettop L + idx + 1)) (stack L)).

(** [#define lua_pop(L,n) lua_settop(L, -(n)-1)]. *)
Definition lua_pop (L : lua_State) (n : Z) : lua_State :=
  lua_settop L (- n - 1).

Definition lua_pushstring (L : lua_State) (s : string) : lua_State :=
  push (VString s) L.

Definition lua_pushboolean (L : lua_State) (b : Z) : lua_State :=
  push (VBoolean (negb (b =? 0))) L.

Definition lua_pushcfunction (L : lua_State) (f : string) : lua_State :=
  push (VCFunction f) L.

Definition lua_pushvalue (L : lua_State) (idx : Z) : lua_State :=
  push (index2value L idx) L.

(** [lua_newtable]: a table no live reference denotes. *)
Definition lua_newtable (L : lua_State) : lua_State :=
  let r := fresh (dom (heap L)) in
  push (VTable r) (with_heap L (<[r := empty_table]> (heap L))).

Definition table_seti (n : Z) (v : value) (t : table) : table :=
  mkTable (store n v (tarray t)) (tfields t).

Definition table_setfield (k : string) (v : value) (t : table) : table :=
  mkTable (tarray t) (store k v (tfields t)).

(** [lua_rawseti(L, idx, n)]: [t[n] = v] for the table [t] at [idx] and the
    value [v] on the top, which is popped. *)
Definition lua_rawseti (L : lua_State) (idx : Z) (n : Z) : lua_State :=
  let v := index2value L (-1) in
  let L' := match index2value L idx with
            | VTable r => with_heap L (alter (table_seti n v) r (heap L))
            | _ => L
            end in
  lua_pop L' 1.

(** [lua_setfield(L, idx, k)] on a table without metatable. *)
Definition lua_setfield (L : lua_State) (idx : Z) (k : string) : lua_State :=
  let v := index2value L (-1) in
  let L' := match index2value L idx with
            | VTable r => with_heap L (alter (table_setfield k v) r (heap L))
            | _ => L
            end in
  lua_pop L' 1.

(** [lua_getfield(L, idx, k)] on a table without metatable. *)
Definition lua_getfield (L : lua_State) (idx : Z) (k : string) : lua_State :=
  match index2value L idx with
  | VTable r =>
      match heap L !! r with
      | Some t => push (fetch k (tfields t)) L
      | None => push VNil L
      end
  | _ => push VNil L
  end.

Definition lua_getglobal (L : lua_State) (name : string) : lua_State :=
  push (fetch name (globals L)) L.

Definition lua_setglobal (L : lua_State) (name : string) : lua_State :=
  let v := index2value L (-1) in
  lua_pop (mkState (stack L) (heap L) (store name v (globals L)) (nthreads L)) 1.

(** [lua_newthread]: pushes a thread no earlier call returned. *)
Definition lua_newthread (L : lua_State) : lua_State :=
  push (VThread (nthreads L))
       (mkState (stack L) (heap L) (globals L) (S (nthreads L))).

(** What a called function does: it returns values or raises. *)
Inductive call_result : Type :=
| CallReturns (results : list value) (L : lua_State)
| CallRaises (err : value).

(** Results adjusted to the number the caller asked for. *)
Definition adjust (nresults : nat) (results : list value) : list value :=
  take nresults results ++ replicate (nresults - length results) VNil.

(** Thread status codes of [lua.h]. *)
Definition LUA_OK : Z := 0.
Definition LUA_YIELD : Z := 1.
Definition LUA_ERRRUN : Z := 2.

End Lua.

Import Lua.

(** ** What the launcher is built with and linked against *)

(** The preprocessor symbols the file tests. *)
Record Build : Type := mkBuild {
  LOVE_VERSION_STRING : string;
  LOVE_LEGENDARY_APP_ARGV_HACK : bool;
  LOVE_LEGENDARY_CONSOLE_IO_HACK : bool;
  LOVE_MACOS : bool;
  LOVE_IOS : bool;
  LUA_VERSION_NUM : Z
}.

(** Modelled from the spec: [love::Variant] of [common/Variant.h], "one
    of: absent, or an application-defined variant value"; the default
    constructor gives the absent one. *)
Inductive Variant : Type :=
| VariantNil
| VariantValue (v : value).

Definition Variant_default : Variant := VariantNil.

(** The functions of other files and libraries the launcher calls.
    [None] and [false] stand for a null pointer returned by an allocator.
    [lua_callee f args L] is the run of the function value [f] on [args];
    [luax_resume L nargs] gives the status, the number of results and the
    state [lua_resume] leaves; [luax_pushvariant L v] is the state after
    the value of [v] was pushed. *)
Record Runtime : Type := mkRuntime {
  love_version : string;
  love_codename : string;
  malloc : bool;
  luaL_newstate : option lua_State;
  luaL_openlibs : lua_State -> lua_State;
  lua_callee : value -> list value -> lua_State -> call_result;
  luax_resume : lua_State -> Z -> Z * Z * lua_State;
  luax_pushvariant : lua_State -> Variant -> lua_State;
  macos_getLoveInResources : string;
  ios_getLoveInResources : string * bool;
  isatty_stdin : bool;
  macos_checkDropEvents : string
}.

(** ** The process *)

Inductive SDL_AppResult : Type :=
| SDL_APP_CONTINUE
| SDL_APP_SUCCESS
| SDL_APP_FAILURE.

Record SDL_Event : Type := mkEvent { event_type : Z }.

(** [struct app_globals]; the state is held by value, the launcher being
    its only owner. *)
Record app_globals : Type := mkGlobals {
  L : lua_State;
  stackpos : Z
}.

(** What the native code does to the world, in order.  [EvNewArgv] stands
    for the building of [new_argv] (the array and its strings, lines
    126-135) and [EvDeleteArgv] for its deletion (lines 279-286), one event
    each; what the C++ library allocates inside [std::vector] and
    [std::string] is not recorded. *)
Inductive event : Type :=
| EvPrintf (text : string)
| EvOpenConsole
| EvMalloc (ok : bool)
| EvNewState (ok : bool)
| EvNewArgv (args : list string)
| EvDeleteArgv
| EvLuaClose
| EvFree.

(** The state that lives as long as the process: what was done so far
    and the function-local static [dropfilestr] of [get_app_arguments]
    ([None] until its declaration is first reached). *)
Record Process : Type := mkProcess {
  trace : list event;
  dropfilestr : option string
}.

Definition start : Process := mkProcess [] None.

(** Ways in which a call does not return. *)
Inductive fault : Type :=
| NullDereference
| InvalidIterator
| LuaPanic (err : value)
| MissingReturn.

Inductive outcome (A : Type) : Type :=
| Done (a : A) (p : Process)
| Fault (f : fault) (p : Process).
Arguments Done {A} a p.
Arguments Fault {A} f p.

Definition M (A : Type) : Type := Process -> outcome A.

Definition ret {A} (a : A) : M A := fun p => Done a p.

Definition bind {A B} (m : M A) (k : A -> M B) : M B :=
  fun p => match m p with
           | Done a p' => k a p'
           | Fault f p' => Fault f p'
           end.

Definition crash {A} (f : fault) : M A := fun p => Fault f p.

Definition emit (e : event) : M unit :=
  fun p => Done tt (mkProcess (trace p ++ [e]) (dropfilestr p)).

Notation "'do' x <- m ; k" := (bind m (fun x => k))
  (at level 10, x name, m at level 100, k at level 200).
Notation "'do' ' pat <- m ; k" :=
  (bind m (fun x => match x with pat => k end))
  (at level 10, pat pattern, m at level 100, k at level 200).
Notation "'run' m ; k" := (bind m (fun _ => k))
  (at level 10, m at level 100, k at level 200).

Definition printf (fmt : string) (args : list string) : M unit :=
  emit (EvPrintf (format fmt args)).

Definition is_empty (s : string) : bool :=
  match s with EmptyString => true | String _ _ => false end.

(** [std::vector::insert(begin() + pos, x)]; the iterator is valid up to
    [end()]. *)
Definition vector_insert (pos : nat) (x : string) (v : list string)
  : M (list string) :=
  if (pos <=? length v)%nat
  then ret (take pos v ++ x :: drop pos v)
  else crash InvalidIterator.

(** The loop of lines 84-89, from index [i]. *)
Fixpoint copy_arguments (i : nat) (argv : list string) : list string :=
  match argv with
  | [] => []
  | a :: rest =>
      if (i =? 0)%nat || negb (strncmp a "-psn_" 5 =? 0)
      then a :: copy_arguments (S i) rest
      else copy_arguments (S i) rest
  end.

Section Launcher.

Variable b : Build.
Variable rt : Runtime.

(** The initialiser of the static [dropfilestr] runs the first time only. *)
Definition static_dropfilestr : M string :=
  fun p => match dropfilestr p with
           | Some s => Done s p
           | None =>
               let s := macos_checkDropEvents rt in
               Done s (mkProcess (trace p) (Some s))
           end.

Definition get_app_arguments (argv : list string) : M (list string) :=
  let temp_argv := copy_arguments 0 argv in
  let '(loveResourcesPath, fused) :=
    if LOVE_MACOS b then (macos_getLoveInResources rt, true)
    else if LOVE_IOS b then ios_getLoveInResources rt
    else ("", true) in
  do new_argv <-
    (if negb (is_empty loveResourcesPath)
     then
       do temp1 <- vector_insert 1 loveResourcesPath temp_argv;
       if fused then vector_insert 2 "--fused" temp1 else ret temp1
     else if LOVE_MACOS b
     then
       if negb (isatty_stdin rt)
       then
         do s <- static_dropfilestr;
         if negb (is_empty s) then vector_insert 1 s temp_argv
         else ret temp_argv
       else ret temp_argv
     else ret temp_argv);
  run emit (EvNewArgv new_argv);
  ret new_argv.

Definition love_preload (L : lua_State) (f : string) (name : string)
  : lua_State :=
  let L := lua_getglobal L "package" in
  let L := lua_getfield L (-1) "preload" in
  let L := lua_pushcfunction L f in
  let L := lua_setfield L (-2) name in
  lua_pop L 2.

Definition usage : string :=
  "LOVE is an *awesome* framework you can use to make 2D games in Lua" +:+ nl +:+
  "https://love2d.org" +:+ nl +:+
  nl +:+
  "usage:" +:+ nl +:+
  "    love --version                  prints LOVE version and quits" +:+ nl +:+
  "    love --help                     prints this message and quits" +:+ nl +:+
  "    love path/to/gamedir            runs the game from the given directory which contains a main.lua file" +:+ nl +:+
  "    love path/to/packagedgame.love  runs the packaged game from the provided .love file" +:+ nl +:+
  "    love path/to/file.lua           runs the game from the given .lua file" +:+ nl.

Definition print_usage : M unit := printf usage [].

(** [lua_call(L, nargs, nresults)]: the function lies under its
    arguments; both are replaced by the adjusted results.  The call is not
    protected: an error it raises reaches the panic handler. *)
Definition lua_call (L : lua_State) (nargs nresults : nat) : M lua_State :=
  let depth := length (stack L) in
  let base := take (depth - (nargs + 1)) (stack L) in
  let f := index2value L (- Z.of_nat (nargs + 1)) in
  let args := drop (depth - nargs) (stack L) in
  match lua_callee rt f args (with_stack L base) with
  | CallReturns results L' =>
      ret (with_stack L' (base ++ adjust nresults results))
  | CallRaises err => crash (LuaPanic err)
  end.

(** [require(name)] with [nresults] results kept. *)
Definition require (L : lua_State) (name : string) (nresults : nat)
  : M lua_State :=
  let L := lua_getglobal L "require" in
  let L := lua_pushstring L name in
  lua_call L 1 nresults.

(** The loop of lines 238-242, from index [i]. *)
Fixpoint push_arguments (L : lua_State) (i : Z) (args : list string)
  : lua_State :=
  match args with
  | [] => L
  | a :: rest =>
      let L := lua_pushstring L a in
      let L := lua_rawseti L (-2) i in
      push_arguments L (i + 1) rest
  end.

(** Lines 226-245: the global [arg]. *)
Definition set_global_arg (L : lua_State) (argv : list string) : lua_State :=
  let L := lua_newtable L in
  let L := match argv with
           | argv0 :: _ => lua_rawseti (lua_pushstring L argv0) (-2) (-2)
           | [] => L
           end in
  let L := lua_pushstring L "embedded boot.lua" in
  let L := lua_rawseti L (-2) (-1) in
  let L := push_arguments L 1 (tail argv) in
  lua_setglobal L "arg".

(** Lines 252-263: the fields [_exe] and [restart] of the table that
    [require "love"] left on the stack. *)
Definition set_love_fields (L : lua_State) (restartvalue : Variant)
  : lua_State * Variant :=
  let L := lua_pushboolean L 1 in
  let L := lua_setfield L (-2) "_exe" in
  let L := luax_pushvariant rt L restartvalue in
  let L := lua_setfield L (-2) "restart" in
  (L, Variant_default).

(** [argc > 1 && strcmp(argv[1], flag) == 0]. *)
Definition first_argument_is (argv : list string) (flag : string) : bool :=
  match argv !! 1%nat with
  | Some a => strcmp a flag =? 0
  | None => false
  end.

Definition SDL_AppInit (argv : list string)
  : M (SDL_AppResult * option app_globals) :=
  if negb (strcmp (LOVE_VERSION_STRING b) (love_version rt) =? 0)
  then
    run printf ("Version mismatch detected!" +:+ nl +:+
                "LOVE binary is version %s" +:+ nl +:+
                "LOVE library is version %s" +:+ nl)
               [LOVE_VERSION_STRING b; love_version rt];
    ret (SDL_APP_FAILURE, None)
  else
  let restartvalue := Variant_default in
  if first_argument_is argv "--version"
  then
    run (if LOVE_LEGENDARY_CONSOLE_IO_HACK b then emit EvOpenConsole else ret tt);
    run printf ("LOVE %s (%s)" +:+ nl) [love_version rt; love_codename rt];
    ret (SDL_APP_SUCCESS, None)
  else
  if first_argument_is argv "--help"
  then run print_usage; ret (SDL_APP_SUCCESS, None)
  else
  run emit (EvMalloc (malloc rt));
  run emit (EvNewState (bool_decide (is_Some (luaL_newstate rt))));
  (* g->L = L *)
  if negb (malloc rt) then crash NullDereference else
  (* luaL_openlibs(L) *)
  match luaL_newstate rt with
  | None => crash NullDereference
  | Some L =>
      let L := luaL_openlibs rt L in
      let L := love_preload L "luaopen_love_jitsetup" "love.jitsetup" in
      do L <- require L "love.jitsetup" 0;
      do argv <- (if LOVE_LEGENDARY_APP_ARGV_HACK b
                  then get_app_arguments argv else ret argv);
      let L := love_preload L "luaopen_love" "love" in
      let L := set_global_arg L argv in
      do L <- require L "love" 1;
      let '(L, restartvalue) := set_love_fields L restartvalue in
      let L := lua_pop L 1 in
      do L <- require L "love.boot" 1;
      let L := lua_newthread L in
      let L := lua_pushvalue L (-2) in
      let g := mkGlobals L (lua_gettop L) in
      run (if LOVE_LEGENDARY_APP_ARGV_HACK b && negb (LOVE_IOS b)
           then emit EvDeleteArgv else ret tt);
      ret (SDL_APP_CONTINUE, Some g)
  end.

Definition SDL_AppIterate (g : app_globals)
  : M (SDL_AppResult * app_globals) :=
  let '(status, nres, L') := luax_resume rt (L g) 0 in
  if status =? LUA_YIELD
  then
    let L' := if 504 <=? LUA_VERSION_NUM b
              then lua_pop L' nres
              else lua_pop L' (lua_gettop L' - stackpos g) in
    ret (SDL_APP_CONTINUE, mkGlobals L' (stackpos g))
  else ret (SDL_APP_SUCCESS, mkGlobals L' (stackpos g)).

(** The body is empty: control reaches the closing brace of a function
    declared to return [SDL_AppResult], and no value is returned. *)
Definition SDL_AppEvent (appstate : option app_globals) (ev : SDL_Event)
  : M SDL_AppResult :=
  crash MissingReturn.

Definition SDL_AppQuit (appstate : option app_globals) (result : SDL_AppResult)
  : M unit :=
  match appstate with
  | None => crash NullDereference
  | Some g => run emit EvLuaClose; emit EvFree
  end.

End Launcher.

(** ** Vocabulary of the statements *)

(** An argument the loop of [get_app_arguments] copies when it is not the
    first of the vector. *)
Definition kept (a : string) : bool := negb (String.prefix "-psn_" a).

(** The entries the loop of lines 238-242 writes, from index [i]. *)
Fixpoint fill (i : Z) (args : list string) (t : table) : table :=
  match args with
  | [] => t
  | a :: rest => fill (i + 1) rest (table_seti i (VString a) t)
  end.

(** The global [arg] after lines 226-245, for a vector that is not empty. *)
Definition arg_table (argv0 : string) (rest : list string) : table :=
  fill 1 rest
    (table_seti (-1) (VString "embedded boot.lua")
       (table_seti (-2) (VString argv0) empty_table)).

(** The text of the three [printf] calls of [SDL_AppInit]. *)
Definition mismatch_text (binary library : string) : string :=
  "Version mismatch detected!" +:+ nl +:+
  "LOVE binary is version " +:+ binary +:+ nl +:+
  "LOVE library is version " +:+ library +:+ nl.

Definition version_text (version codename : string) : string :=
  "LOVE " +:+ version +:+ " (" +:+ codename +:+ ")" +:+ nl.

(** The process after the events [evs]. *)
Definition logged (p : Process) (evs : list event) : Process :=
  mkProcess (trace p ++ evs) (dropfilestr p).

(** The entry of the global [arg] under the integer key [k]. *)
Definition global_arg_entry (L : lua_State) (k : Z) : value :=
  match globals L !! "arg" with
  | Some (VTable r) =>
      match heap L !! r with
      | Some t => fetch k (tarray t)
      | None => VNil
      end
  | _ => VNil
  end.

(** The field [k] of the global table [love]. *)
Definition love_field (L : lua_State) (k : string) : value :=
  match globals L !! "love" with
  | Some (VTable r) =>
      match heap L !! r with
      | Some t => fetch k (tfields t)
      | None => VNil
      end
  | _ => VNil
  end.

(** The value of a finished call. *)
Definition value_of {A} (o : outcome A) : option A :=
  match o with Done a _ => Some a | Fault _ _ => None end.

(** Two outcomes that differ at most in the trace of the process. *)
Definition agree {A} (o1 o2 : outcome A) : Prop :=
  match o1, o2 with
  | Done a1 p1, Done a2 p2 => a1 = a2 /\ dropfilestr p1 = dropfilestr p2
  | Fault f1 _, Fault f2 _ => f1 = f2
  | _, _ => False
  end.

(** A computation that reads nothing of the process but the static
    [dropfilestr]. *)
Definition uniform {A} (m : M A) : Prop :=
  forall p q : Process, dropfilestr p = dropfilestr q -> agree (m p) (m q).

(** The events of the argument copy in a run of [SDL_AppInit] that gets
    past the interpreter set-up: the copy is made where the build has the
    argument hack, and deleted again except on iOS. *)
Definition argv_events (b : Build) (new_argv : list string) : list event :=
  (if LOVE_LEGENDARY_APP_ARGV_HACK b then [EvNewArgv new_argv] else [])
  ++ (if LOVE_LEGENDARY_APP_ARGV_HACK b && negb (LOVE_IOS b)
      then [EvDeleteArgv] else []).





(** A resume that yields leaves what it found on the stack and puts its
    values, [nres] of them, on top. *)
Definition resume_keeps_stack (rt : Runtime) : Prop :=
  forall (L0 L' : lua_State) (nres : Z),
    luax_resume rt L0 0 = (LUA_YIELD, nres, L') ->
    exists above : list value,
      stack L' = stack L0 ++ above /\ nres = Z.of_nat (length above).

(** [frames b rt g g']: some calls of [SDL_AppIterate] in a row, each
    answering [SDL_APP_CONTINUE], lead from [g] to [g']. *)
Inductive frames (b : Build) (rt : Runtime) : app_globals -> app_globals -> Prop :=
| frames_refl (g : app_globals) : frames b rt g g
| frames_step (g g' g'' : app_globals) (p p' : Process) :
    SDL_AppIterate b rt g p = Done (SDL_APP_CONTINUE, g') p' ->
    frames b rt g' g'' ->
    frames b rt g g''.

(** ** Concrete runs

    A small interpreter to run the launcher on: [require] knows the three
    modules the launcher asks for, and the boot function is resumed by one
    of three scripts. *)

Module Scenario.

Definition fresh_state : lua_State := mkState [] ∅ ∅ 0.

(** [package.preload] and [require], as [luaL_openlibs] leaves them. *)
Definition openlibs (L : lua_State) : lua_State :=
  let preload := fresh (dom (heap L)) in
  let h := <[preload := empty_table]> (heap L) in
  let package := fresh (dom h) in
  let h := <[package := mkTable ∅ {[ "preload" := VTable preload ]}]> h in
  mkState (stack L) h
          (<["require" := VCFunction "require"]>
             (<["package" := VTable package]> (globals L)))
          (nthreads L).

(** [require "love"] makes the module table and the global [love]. *)
Definition callee (f : value) (args : list value) (L : lua_State)
  : call_result :=
  match f, args with
  | VCFunction "require", [VString "love"] =>
      let r := fresh (dom (heap L)) in
      CallReturns [VTable r]
        (mkState (stack L) (<[r := empty_table]> (heap L))
                 (<["love" := VTable r]> (globals L)) (nthreads L))
  | VCFunction "require", [VString "love.boot"] => CallReturns [VFunction 0] L
  | VCFunction "require", [VString "love.jitsetup"] => CallReturns [] L
  | _, _ => CallRaises (VString "attempt to call a nil value")
  end.

(** A frame: the boot function yields two values. *)
Definition resume_yield (L : lua_State) (nargs : Z) : Z * Z * lua_State :=
  (LUA_YIELD, 2, with_stack L (stack L ++ [VNumber 1; VNumber 2])).

(** The script raises on its first statement. *)
Definition resume_error (L : lua_State) (nargs : Z) : Z * Z * lua_State :=
  (LUA_ERRRUN, 1, with_stack L (stack L ++ [VString "main.lua:1: boom"])).

(** The boot function returns, asking for a restart with a value. *)
Definition resume_restart (L : lua_State) (nargs : Z) : Z * Z * lua_State :=
  (LUA_OK, 2, with_stack L (stack L ++ [VString "restart"; VString "saved"])).

(** The empty variant is nil. *)
Definition pushvariant (L : lua_State) (v : Variant) : lua_State :=
  match v with
  | VariantNil => push VNil L
  | VariantValue x => push x L
  end.

Definition runtime (version : string) (malloc_ok : bool)
  (newstate : option lua_State)
  (resume : lua_State -> Z -> Z * Z * lua_State) : Runtime :=
  mkRuntime version "Bestest Friend" malloc_ok newstate openlibs callee resume
            pushvariant "" ("", true) true "".

Definition healthy (resume : lua_State -> Z -> Z * Z * lua_State) : Runtime :=
  runtime "12.0" true (Some fresh_state) resume.

(** A desktop build against LuaJIT, one for macOS, one against Lua 5.4. *)
Definition desktop : Build := mkBuild "12.0" false false false false 501.
Definition macos : Build := mkBuild "12.0" true false true false 501.
Definition lua54 : Build := mkBuild "12.0" false false false false 504.

(** A build for iOS. *)
Definition ios : Build := mkBuild "12.0" true false false true 501.

(** A macOS application started from the Finder with a file dropped on it;
    the same once the drop events are gone; an application bundle with a
    game in its resources. *)
Definition dropped : Runtime :=
  mkRuntime "12.0" "Bestest Friend" true (Some fresh_state) openlibs callee
            resume_yield pushvariant "" ("", true) false "/tmp/game.love".
Definition dropped_later : Runtime :=
  mkRuntime "12.0" "Bestest Friend" true (Some fresh_state) openlibs callee
            resume_yield pushvariant "" ("", true) false "".
Definition bundled : Runtime :=
  mkRuntime "12.0" "Bestest Friend" true (Some fresh_state) openlibs callee
            resume_yield pushvariant "game.love" ("game.love", false) true "".




(** A resume that yields two values and reports one. *)
Definition resume_miscount (L : lua_State) (nargs : Z) : Z * Z * lua_State :=
  (LUA_YIELD, 1, with_stack L (stack L ++ [VNumber 1; VNumber 2])).

(** The interpreter after [luaL_openlibs], with a stack of one value. *)
Definition opened : lua_State :=
  mkState [VNumber 7]
          {[ 0%nat := empty_table;
             1%nat := mkTable ∅ {[ "preload" := VTable 0%nat ]} ]}
          {[ "package" := VTable 1%nat ]} 0.

(** A resume that yields and leaves an empty stack. *)
Definition resume_short (L : lua_State) (nargs : Z) : Z * Z * lua_State :=
  (LUA_YIELD, 0, with_stack L []).

(** The command line [love game]. *)
Definition games : list string := ["love"; "game"].

(** A library of another version; a process out of memory at [malloc];
    one out of memory at [luaL_newstate]. *)
Definition older : Runtime :=
  runtime "11.5" true (Some fresh_state) resume_yield.
Definition no_memory : Runtime :=
  runtime "12.0" false (Some fresh_state) resume_yield.
Definition no_state : Runtime :=
  runtime "12.0" true None resume_yield.

(** The state [SDL_AppInit] hands over for [love game]. *)
Definition booted : app_globals :=
  match value_of (SDL_AppInit desktop (healthy resume_yield) games start) with
  | Some (_, Some g) => g
  | _ => mkGlobals fresh_state 0
  end.

(** One whole cycle and the [init] of the next one, in one process: init,
    one iterate, quit, init. *)
Definition restart_cycle (b : Build) (rt : Runtime) (argv : list string)
  : M (SDL_AppResult * option app_globals) :=
  do r <- SDL_AppInit b rt argv;
  match snd r with
  | None => ret r
  | Some g =>
      do r' <- SDL_AppIterate b rt g;
      run SDL_AppQuit (Some (snd r')) (fst r');
      SDL_AppInit b rt argv
  end.

End Scenario.

(** * Properties *)

Section CStringFacts.

Lemma code_inj (c d : ascii) : code c = code d -> c = d.
Proof.
  unfold code. intros H. apply Nat2Z.inj in H.
  rewrite <- (ascii_nat_embedding c), <- (ascii_nat_embedding d).
  now f_equal.
Qed.

Lemma strcmp_refl (a : string) : strcmp a a = 0.
Proof.
  induction a as [|c a IH]; simpl; [reflexivity|].
  rewrite Z.eqb_refl. now destruct (code c =? 0).
Qed.

Lemma strcmp_eq (a b : string) :
  cstring a -> cstring b -> strcmp a b = 0 -> a = b.
Proof.
  unfold cstring. revert b.
  induction a as [|c a IH]; intros [|d b]; simpl; try reflexivity.
  - intros _. destruct (Z.eqb_spec (code d) 0); simpl; [discriminate|intros; lia].
  - destruct (Z.eqb_spec (code c) 0); simpl; [discriminate|intros; lia].
  - destruct (Z.eqb_spec (code c) 0) as [|Hc]; simpl; [discriminate|].
    destruct (Z.eqb_spec (code d) 0) as [|Hd]; simpl; [discriminate|].
    intros Ha Hb.
    destruct (Z.eqb_spec (code c) (code d)) as [E|E]; [|intros; lia].
    intros H. apply code_inj in E. subst d. f_equal. now apply IH.
Qed.

Lemma strcmp_neq (a b : string) :
  cstring a -> cstring b -> a <> b -> strcmp a b <> 0.
Proof. intros Ha Hb Hne E. apply Hne. now apply strcmp_eq. Qed.

Lemma strncmp_prefix (p a : string) :
  cstring p -> (strncmp a p (String.length p) =? 0) = String.prefix p a.
Proof.
  unfold cstring. revert a.
  induction p as [|d p IH]; intros a Hp.
  - now destruct a.
  - cbn [no_nul] in Hp. apply andb_prop in Hp as [Hd Hp].
    apply negb_true_iff, Z.eqb_neq in Hd.
    destruct a as [|c a]; cbn [strncmp String.length String.prefix].
    + apply Z.eqb_neq. lia.
    + destruct (ascii_dec d c) as [->|Hne].
      * rewrite Z.eqb_refl.
        destruct (Z.eqb_spec (code c) 0); [contradiction|]. now apply IH.
      * destruct (Z.eqb_spec (code c) (code d)) as [E|E].
        -- apply code_inj in E. congruence.
        -- apply Z.eqb_neq. lia.
Qed.

End CStringFacts.

Section ArgumentPreprocessor.

Variable b : Build.
Variable rt : Runtime.

Lemma copy_arguments_S (i : nat) (args : list string) :
  copy_arguments (S i) args = List.filter kept args.
Proof.
  revert i. induction args as [|a args IH]; intros i; [reflexivity|].
  cbn [copy_arguments List.filter]. unfold kept at 1.
  rewrite <- (strncmp_prefix "-psn_" a) by reflexivity.
  cbn [Nat.eqb orb String.length]. rewrite IH.
  now destruct (strncmp a "-psn_" 5 =? 0).
Qed.

Lemma copy_arguments_0 (argv0 : string) (rest : list string) :
  copy_arguments 0 (argv0 :: rest) = argv0 :: List.filter kept rest.
Proof. cbn [copy_arguments Nat.eqb orb]. now rewrite copy_arguments_S. Qed.

Lemma vector_insert_1 (x a : string) (v : list string) (p : Process) :
  vector_insert 1 x (a :: v) p = Done (a :: x :: v) p.
Proof. reflexivity. Qed.

Lemma vector_insert_2 (x a a' : string) (v : list string) (p : Process) :
  vector_insert 2 x (a :: a' :: v) p = Done (a :: a' :: x :: v) p.
Proof. reflexivity. Qed.

(** C4, as amended.  The copying loop of [get_app_arguments] keeps the
    argument at index 0 and, of the others, exactly those that do not begin
    with [-psn_], in their order: an argument that begins with [-psn_] is
    dropped at whatever index from 1 on it stands, not only as the first
    user argument. *)
Theorem copy_arguments_drops_every_psn (argv0 : string) (rest : list string) :
  copy_arguments 0 (argv0 :: rest)
  = argv0 :: List.filter (fun a => negb (String.prefix "-psn_" a)) rest.
Proof. apply copy_arguments_0. Qed.

(** Closes a branch of [get_app_arguments] in which the block [ins] was put
    in after index 0. *)
Ltac inserted ins :=
  match goal with
  | Hlen : forall _ : list string, length (?a :: _ ++ ?tl) = _ |- _ =>
      exists (a :: ins ++ tl), ins; eexists;
      unfold bind, ret, emit;
      rewrite ?vector_insert_1, ?vector_insert_2;
      repeat split; auto; apply (Hlen ins)
  end.

(** C7.  Whatever the build and the platform answer, on a vector with an
    executable path [get_app_arguments] returns; index 0 of its result is
    the executable path; the result is the copied vector with a block [ins]
    put in right after index 0, so the surviving user arguments follow in
    their order; and the block, when there is one, has one or two
    entries. *)
Theorem get_app_arguments_inserts_after_argv0
  (argv0 : string) (rest : list string) (p : Process) :
  exists (out ins : list string) (p' : Process),
    get_app_arguments b rt (argv0 :: rest) p = Done out p' /\
    out !! 0%nat = Some argv0 /\
    out = argv0 :: ins ++ List.filter kept rest /\
    length out = (length (copy_arguments 0 (argv0 :: rest)) + length ins)%nat /\
    (ins = [] \/ length ins = 1%nat \/ length ins = 2%nat).
Proof.
  unfold get_app_arguments. rewrite copy_arguments_0.
  set (tl := List.filter kept rest).
  assert (Hlen : forall ins : list string,
             length (argv0 :: ins ++ tl)
             = (length (argv0 :: tl) + length ins)%nat).
  { intros ins. cbn [length]. rewrite length_app. lia. }
  destruct (LOVE_MACOS b) eqn:Hmac.
  - (* macOS: the bundled game, else a dropped file *)
    destruct (macos_getLoveInResources rt) as [|c path];
      cbn [is_empty negb]; [|inserted [String c path; "--fused"]].
    destruct (isatty_stdin rt); cbn [negb]; [inserted (@nil string)|].
    unfold bind at 1 2. unfold static_dropfilestr.
    destruct (dropfilestr p) as [[|c s]|]; cbn [is_empty negb];
      [inserted (@nil string) | inserted [String c s] |].
    destruct (macos_checkDropEvents rt) as [|c s]; cbn [is_empty negb];
      [inserted (@nil string) | inserted [String c s]].
  - destruct (LOVE_IOS b); cbn [is_empty negb]; [|inserted (@nil string)].
    (* iOS: the bundled game, fused or not *)
    destruct (ios_getLoveInResources rt) as [[|c path] [|]];
      cbn [is_empty negb];
      [ inserted (@nil string) | inserted (@nil string)
      | inserted [String c path; "--fused"] | inserted [String c path] ].
Qed.

End ArgumentPreprocessor.

Section StackFacts.

Lemma index2value_top (s : list value) (v : value) h g n :
  index2value (mkState (s ++ [v]) h g n) (-1) = v.
Proof.
  unfold index2value, index2pos, lua_gettop. cbn [stack].
  rewrite length_app. cbn [length].
  replace (0 <? -1) with false by reflexivity.
  replace (-1 <? 0) with true by reflexivity.
  destruct (Z.leb_spec 0 (Z.of_nat (length s + 1) + -1)); [|lia].
  cbn [andb].
  replace (Z.to_nat (Z.of_nat (length s + 1) + -1)) with (length s + 0)%nat
    by lia.
  now rewrite lookup_app_r, Nat.add_comm, Nat.add_sub by lia.
Qed.

Lemma index2value_under (s : list value) (u v : value) h g n :
  index2value (mkState (s ++ [u; v]) h g n) (-2) = u.
Proof.
  unfold index2value, index2pos, lua_gettop. cbn [stack].
  rewrite length_app. cbn [length].
  replace (0 <? -2) with false by reflexivity.
  replace (-2 <? 0) with true by reflexivity.
  destruct (Z.leb_spec 0 (Z.of_nat (length s + 2) + -2)); [|lia].
  cbn [andb].
  replace (Z.to_nat (Z.of_nat (length s + 2) + -2)) with (length s + 0)%nat
    by lia.
  now rewrite lookup_app_r, Nat.add_comm, Nat.add_sub by lia.
Qed.

Lemma lua_pop_app (s t : list value) h g n :
  lua_pop (mkState (s ++ t) h g n) (Z.of_nat (length t)) = mkState s h g n.
Proof.
  unfold lua_pop, lua_settop, lua_gettop, with_stack. cbn [stack heap globals nthreads].
  destruct (Z.leb_spec 0 (- Z.of_nat (length t) - 1)); [lia|].
  rewrite length_app.
  replace (Z.to_nat _) with (length s) by lia.
  now rewrite take_app_length.
Qed.

Lemma lua_pop_1 (s : list value) (v : value) h g n :
  lua_pop (mkState (s ++ [v]) h g n) 1 = mkState s h g n.
Proof. apply (lua_pop_app s [v]). Qed.

Lemma app_2 {A} (s : list A) (u v : A) : s ++ [u; v] = (s ++ [u]) ++ [v].
Proof. now rewrite <- app_assoc. Qed.

Lemma rawseti_pushed (s : list value) (r : nat) (a : string) (k : Z) h g n :
  lua_rawseti (lua_pushstring (mkState (s ++ [VTable r]) h g n) a) (-2) k
  = mkState (s ++ [VTable r]) (alter (table_seti k (VString a)) r h) g n.
Proof.
  unfold lua_pushstring, push, with_stack. cbn [stack heap globals nthreads].
  rewrite <- app_assoc. cbn [app].
  unfold lua_rawseti. rewrite index2value_under.
  rewrite (app_2 s), index2value_top.
  unfold with_heap. cbn [stack heap globals nthreads].
  apply lua_pop_1.
Qed.

Lemma setfield_pushed (s : list value) (r : nat) (v : value) (k : string) h g n :
  lua_setfield (push v (mkState (s ++ [VTable r]) h g n)) (-2) k
  = mkState (s ++ [VTable r]) (alter (table_setfield k v) r h) g n.
Proof.
  unfold push, with_stack. cbn [stack heap globals nthreads].
  rewrite <- app_assoc. cbn [app].
  unfold lua_setfield. rewrite index2value_under.
  rewrite (app_2 s), index2value_top.
  unfold with_heap. cbn [stack heap globals nthreads].
  apply lua_pop_1.
Qed.

Lemma fetch_store_eq {K} `{Countable K} (k : K) (v : value) (m : gmap K value) :
  fetch k (store k v m) = v.
Proof.
  unfold fetch, store. destruct v; cbn [is_nil];
    rewrite ?lookup_delete_eq, ?lookup_insert_eq; reflexivity.
Qed.

Lemma fetch_store_ne {K} `{Countable K} (k k' : K) (v : value) (m : gmap K value) :
  k <> k' -> fetch k' (store k v m) = fetch k' m.
Proof.
  intros Hne. unfold fetch, store. destruct (is_nil v);
    rewrite ?lookup_delete_ne, ?lookup_insert_ne by done; reflexivity.
Qed.

End StackFacts.

Section ArgTable.

Lemma push_arguments_fill (args : list string) (i : Z) (s : list value) (r : nat) h g n :
  push_arguments (mkState (s ++ [VTable r]) h g n) i args
  = mkState (s ++ [VTable r]) (alter (fill i args) r h) g n.
Proof.
  revert i h. induction args as [|a args IH]; intros i h; cbn [push_arguments fill].
  - f_equal. symmetry. apply alter_id. reflexivity.
  - rewrite rawseti_pushed, IH. f_equal. apply alter_alter_eq.
Qed.

Lemma fill_below (args : list string) (i k : Z) (t : table) :
  k < i -> fetch k (tarray (fill i args t)) = fetch k (tarray t).
Proof.
  revert i t. induction args as [|a args IH]; intros i t Hk; cbn [fill].
  - reflexivity.
  - rewrite IH by lia. cbn [table_seti tarray].
    apply fetch_store_ne. lia.
Qed.

Lemma fill_above (args : list string) (i k : Z) (t : table) :
  i + Z.of_nat (length args) <= k ->
  fetch k (tarray (fill i args t)) = fetch k (tarray t).
Proof.
  revert i t. induction args as [|a args IH]; intros i t Hk; cbn [fill].
  - reflexivity.
  - cbn [length] in Hk. rewrite IH by lia. cbn [table_seti tarray].
    apply fetch_store_ne. lia.
Qed.

Lemma fill_at (args : list string) (i : Z) (t : table) (j : nat) (a : string) :
  args !! j = Some a ->
  fetch (i + Z.of_nat j) (tarray (fill i args t)) = VString a.
Proof.
  revert i t j. induction args as [|x args IH]; intros i t j Hj; [discriminate|].
  cbn [fill]. destruct j as [|j].
  - injection Hj as ->. rewrite fill_below by lia.
    cbn [table_seti tarray]. rewrite Z.add_0_r. apply fetch_store_eq.
  - replace (i + Z.of_nat (S j)) with (i + 1 + Z.of_nat j) by lia.
    now apply IH.
Qed.

Lemma set_global_arg_eq (s : list value) h g n (argv0 : string) (rest : list string) :
  set_global_arg (mkState s h g n) (argv0 :: rest)
  = mkState s (<[fresh (dom h) := arg_table argv0 rest]> h)
            (<["arg" := VTable (fresh (dom h))]> g) n.
Proof.
  unfold set_global_arg, lua_newtable, push, with_heap, with_stack.
  cbn [stack heap globals nthreads tail].
  set (r := fresh (dom h)).
  rewrite !rawseti_pushed, push_arguments_fill.
  unfold lua_setglobal. rewrite index2value_top.
  cbn [stack heap globals nthreads store is_nil].
  rewrite lua_pop_1. f_equal.
  now rewrite !alter_insert_eq.
Qed.

End ArgTable.

Section MonadFacts.

Lemma bind_Done {A B} (m : M A) (k : A -> M B) (p p' : Process) (y : B) :
  bind m k p = Done y p' ->
  exists (x : A) (q : Process), m p = Done x q /\ k x q = Done y p'.
Proof.
  unfold bind. destruct (m p) as [x q|f q]; [|discriminate].
  intros H. now exists x, q.
Qed.

Lemma Done_inj {A} (a a' : A) (p p' : Process) :
  Done a p = Done a' p' -> a = a' /\ p = p'.
Proof. intros H. now inversion H. Qed.

End MonadFacts.

Section Bootstrap.

Variable b : Build.
Variable rt : Runtime.

(** C5, as amended.  For a vector with an executable path, lines 226-245
    leave the stack as it was and bind the global [arg] to a new table that
    holds the executable path under -2, the marker ["embedded boot.lua"]
    under -1, nothing under 0, the arguments after the executable path
    under 1, 2, ... in their order, and nothing beyond on either side. *)
Theorem set_global_arg_layout (L0 : lua_State) (argv0 : string) (rest : list string) :
  exists (r : nat) (t : table),
    heap L0 !! r = None /\
    globals (set_global_arg L0 (argv0 :: rest)) !! "arg" = Some (VTable r) /\
    heap (set_global_arg L0 (argv0 :: rest)) !! r = Some t /\
    fetch (-2) (tarray t) = VString argv0 /\
    fetch (-1) (tarray t) = VString "embedded boot.lua" /\
    fetch 0 (tarray t) = VNil /\
    (forall (i : nat) (a : string),
        rest !! i = Some a -> fetch (1 + Z.of_nat i) (tarray t) = VString a) /\
    (forall k : Z,
        k < -2 \/ 1 + Z.of_nat (length rest) <= k -> fetch k (tarray t) = VNil) /\
    stack (set_global_arg L0 (argv0 :: rest)) = stack L0.
Proof.
  destruct L0 as [s h g n]. rewrite set_global_arg_eq. cbn [stack heap globals].
  exists (fresh (dom h)), (arg_table argv0 rest).
  split; [apply not_elem_of_dom, is_fresh|].
  split; [apply lookup_insert_eq|].
  split; [apply lookup_insert_eq|].
  unfold arg_table.
  split; [now rewrite fill_below by lia|].
  split; [now rewrite fill_below by lia|].
  split; [now rewrite fill_below by lia|].
  split; [intros i a Hi; now apply fill_at|].
  split; [|reflexivity].
  intros k [Hk|Hk].
  - rewrite fill_below by lia. cbn [table_seti tarray empty_table].
    rewrite !fetch_store_ne by lia. reflexivity.
  - rewrite fill_above by lia. cbn [table_seti tarray empty_table].
    rewrite !fetch_store_ne by lia. reflexivity.
Qed.

(** C6.  When the version compiled into the launcher differs from the one
    the library reports, [SDL_AppInit] prints one message holding both and
    returns [SDL_APP_FAILURE] with no application state; the message is the
    only thing it does: no allocation, no interpreter, whatever the
    arguments. *)
Theorem SDL_AppInit_version_mismatch (argv : list string) (p : Process) :
  cstring (LOVE_VERSION_STRING b) ->
  cstring (love_version rt) ->
  LOVE_VERSION_STRING b <> love_version rt ->
  SDL_AppInit b rt argv p
  = Done (SDL_APP_FAILURE, None)
         (logged p [EvPrintf (mismatch_text (LOVE_VERSION_STRING b)
                                            (love_version rt))]).
Proof.
  intros Hb Hrt Hne. unfold SDL_AppInit.
  apply (strcmp_neq _ _ Hb Hrt), Z.eqb_neq in Hne. rewrite Hne.
  reflexivity.
Qed.

Lemma first_argument_is_version (argv : list string) :
  argv !! 1%nat = Some "--version" -> first_argument_is argv "--version" = true.
Proof. unfold first_argument_is. now intros ->. Qed.

Lemma first_argument_is_help (argv : list string) :
  argv !! 1%nat = Some "--help" ->
  first_argument_is argv "--version" = false /\
  first_argument_is argv "--help" = true.
Proof. unfold first_argument_is. now intros ->. Qed.

(** C3, as amended.  When the two versions agree and the first user
    argument is [--version], [SDL_AppInit] (after opening the console where
    the build asks for it) prints the version line, made of the library's
    version and code name, and returns [SDL_APP_SUCCESS]; when it is
    [--help], it prints the usage text and returns [SDL_APP_SUCCESS].  In
    both cases nothing is allocated and no interpreter is created. *)
Theorem SDL_AppInit_version_or_help (argv : list string) (p : Process) :
  LOVE_VERSION_STRING b = love_version rt ->
  (argv !! 1%nat = Some "--version" ->
   SDL_AppInit b rt argv p
   = Done (SDL_APP_SUCCESS, None)
          (logged p ((if LOVE_LEGENDARY_CONSOLE_IO_HACK b
                      then [EvOpenConsole] else [])
                     ++ [EvPrintf (version_text (love_version rt)
                                                (love_codename rt))]))) /\
  (argv !! 1%nat = Some "--help" ->
   SDL_AppInit b rt argv p
   = Done (SDL_APP_SUCCESS, None) (logged p [EvPrintf usage])).
Proof.
  intros Hv. unfold SDL_AppInit. rewrite Hv, strcmp_refl. cbn [Z.eqb negb].
  split; intros Harg.
  - rewrite first_argument_is_version by assumption.
    destruct (LOVE_LEGENDARY_CONSOLE_IO_HACK b).
    + cbv beta iota delta [bind emit ret printf logged trace dropfilestr].
      rewrite <- app_assoc. reflexivity.
    + reflexivity.
  - destruct (first_argument_is_help argv Harg) as [-> ->].
    reflexivity.
Qed.

(** Whatever the two versions, a call with one of the two flags in first
    user position returns without a state, and all it does is print (and,
    at most, open the console). *)
Lemma SDL_AppInit_flags_allocate_nothing (argv : list string) (p : Process) :
  argv !! 1%nat = Some "--version" \/ argv !! 1%nat = Some "--help" ->
  exists (r : SDL_AppResult) (evs : list event),
    SDL_AppInit b rt argv p = Done (r, None) (logged p evs) /\
    (r = SDL_APP_SUCCESS \/ r = SDL_APP_FAILURE) /\
    forall e : event,
      In e evs -> e = EvOpenConsole \/ exists text : string, e = EvPrintf text.
Proof.
  intros Hflag. unfold SDL_AppInit.
  destruct (negb _).
  - eexists _, [_]. split; [reflexivity|]. split; [now right|].
    intros e [<-|[]]. right. now eexists.
  - assert (Hfirst : first_argument_is argv "--version" = true \/
                     first_argument_is argv "--version" = false /\
                     first_argument_is argv "--help" = true).
    { destruct Hflag as [H|H];
        [left; now apply first_argument_is_version
        |right; now apply first_argument_is_help]. }
    destruct Hfirst as [->|[-> ->]].
    + destruct (LOVE_LEGENDARY_CONSOLE_IO_HACK b).
      * exists SDL_APP_SUCCESS,
          [EvOpenConsole;
           EvPrintf (version_text (love_version rt) (love_codename rt))].
        split.
        { cbv beta iota delta [bind emit ret printf logged trace dropfilestr].
          rewrite <- app_assoc. reflexivity. }
        split; [now left|].
        intros e [<-|[<-|[]]]; [now left|right; now eexists].
      * eexists _, [_]. split; [reflexivity|]. split; [now left|].
        intros e [<-|[]]. right. now eexists.
    + eexists _, [_]. split; [reflexivity|]. split; [now left|].
      intros e [<-|[]]. right. now eexists.
Qed.

(** C9, as amended.  Past the version gate and the two flags,
    [SDL_AppInit] calls [malloc] and [luaL_newstate] one after the other
    without testing what they return; when either returns null it goes on
    to use the null pointer, and no failure status is returned. *)
Theorem SDL_AppInit_allocation_failure (argv : list string) (p : Process) :
  LOVE_VERSION_STRING b = love_version rt ->
  first_argument_is argv "--version" = false ->
  first_argument_is argv "--help" = false ->
  malloc rt = false \/ luaL_newstate rt = None ->
  SDL_AppInit b rt argv p
  = Fault NullDereference
          (logged p [EvMalloc (malloc rt);
                     EvNewState (bool_decide (is_Some (luaL_newstate rt)))]).
Proof.
  intros Hv Hver Hhelp Hnull. unfold SDL_AppInit.
  rewrite Hv, strcmp_refl, Hver, Hhelp. cbn [Z.eqb negb].
  cbv beta iota delta [bind emit crash logged trace dropfilestr].
  rewrite <- app_assoc. cbn [app].
  destruct (malloc rt); cbn [negb]; [|reflexivity].
  destruct Hnull as [Hm|Hn]; [discriminate|]. now rewrite Hn.
Qed.

(** The version gate is the only place [SDL_AppInit] returns
    [SDL_APP_FAILURE] from. *)
Lemma SDL_AppInit_failure_only_from_gate
  (argv : list string) (p p' : Process) (st : option app_globals) :
  SDL_AppInit b rt argv p = Done (SDL_APP_FAILURE, st) p' ->
  strcmp (LOVE_VERSION_STRING b) (love_version rt) <> 0.
Proof.
  unfold SDL_AppInit.
  destruct (Z.eqb_spec (strcmp (LOVE_VERSION_STRING b) (love_version rt)) 0)
    as [_|Hne]; [|intros _; exact Hne].
  cbn [negb].
  destruct (first_argument_is argv "--version").
  { intros H. apply bind_Done in H as (? & ? & _ & H).
    apply bind_Done in H as (? & ? & _ & H). unfold ret in H. congruence. }
  destruct (first_argument_is argv "--help").
  { intros H. apply bind_Done in H as (? & ? & _ & H).
    unfold ret in H. congruence. }
  intros H. apply bind_Done in H as (? & ? & _ & H).
  apply bind_Done in H as (? & ? & _ & H).
  destruct (negb (malloc rt)); [unfold crash in H; congruence|].
  destruct (luaL_newstate rt) as [L0|]; [|unfold crash in H; congruence].
  apply bind_Done in H as (L1 & ? & _ & H).
  apply bind_Done in H as (argv' & ? & _ & H).
  apply bind_Done in H as (L2 & ? & _ & H).
  cbn [set_love_fields] in H.
  apply bind_Done in H as (L3 & ? & _ & H).
  apply bind_Done in H as (? & ? & _ & H).
  unfold ret in H. apply Done_inj in H as [H _].
  apply (f_equal fst) in H. discriminate H.
Qed.

End Bootstrap.

Section Driver.

Variable b : Build.
Variable rt : Runtime.

(** Lines 274-277: the marker is the depth of the stack [SDL_AppInit]
    hands over, and the boot function lies on its top. *)
Lemma SDL_AppInit_marker (argv : list string) (p p' : Process) (g : app_globals) :
  SDL_AppInit b rt argv p = Done (SDL_APP_CONTINUE, Some g) p' ->
  stackpos g = lua_gettop (L g) /\
  exists (s : list value) (f : value) (t : nat),
    stack (L g) = s ++ [f; VThread t; f].
Proof.
  unfold SDL_AppInit.
  destruct (negb (strcmp (LOVE_VERSION_STRING b) (love_version rt) =? 0)).
  { intros H. apply bind_Done in H as (? & ? & _ & H).
    unfold ret in H. congruence. }
  destruct (first_argument_is argv "--version"); [|].
  { intros H. apply bind_Done in H as (? & ? & _ & H).
    apply bind_Done in H as (? & ? & _ & H). unfold ret in H. congruence. }
  destruct (first_argument_is argv "--help").
  { intros H. apply bind_Done in H as (? & ? & _ & H).
    unfold ret in H. congruence. }
  intros H. apply bind_Done in H as (? & ? & _ & H).
  apply bind_Done in H as (? & ? & _ & H).
  destruct (negb (malloc rt)); [unfold crash in H; congruence|].
  destruct (luaL_newstate rt) as [L0|]; [|unfold crash in H; congruence].
  apply bind_Done in H as (L1 & ? & _ & H).
  apply bind_Done in H as (argv' & ? & _ & H).
  apply bind_Done in H as (L2 & ? & _ & H).
  cbn [set_love_fields] in H.
  apply bind_Done in H as (L3 & ? & HL3 & H).
  apply bind_Done in H as (? & ? & _ & H).
  unfold ret in H.
  apply Done_inj in H as [H _].
  apply (f_equal snd) in H. cbn [snd] in H. injection H as <-.
  cbn [stackpos L]. split; [reflexivity|].
  unfold require, lua_call in HL3.
  destruct (lua_callee _ _ _ _) as [results L'|];
    [|unfold crash in HL3; congruence].
  unfold ret in HL3.
  apply Done_inj in HL3 as [<- _].
  unfold lua_pushvalue, lua_newthread, push, with_stack.
  cbn [stack heap globals nthreads].
  set (base := take _ _).
  destruct results as [|v results].
  - exists base, VNil, (nthreads L'). unfold adjust.
    cbn [take replicate length Nat.sub app].
    rewrite <- (app_2 base), index2value_under, <- app_assoc. reflexivity.
  - exists base, v, (nthreads L'). unfold adjust.
    cbn [take replicate length Nat.sub app]. rewrite take_0, app_nil_r.
    rewrite <- (app_2 base), index2value_under, <- app_assoc. reflexivity.
Qed.

Lemma SDL_AppIterate_yield_eq
  (g : app_globals) (p : Process) (nres : Z) (below above : list value) h gl n :
  luax_resume rt (L g) 0 = (LUA_YIELD, nres, mkState (below ++ above) h gl n) ->
  Z.of_nat (length below) = stackpos g ->
  (504 <= LUA_VERSION_NUM b -> nres = Z.of_nat (length above)) ->
  SDL_AppIterate b rt g p
  = Done (SDL_APP_CONTINUE, mkGlobals (mkState below h gl n) (stackpos g)) p.
Proof.
  intros Hres Hmark Hnres. unfold SDL_AppIterate. rewrite Hres.
  cbn [Z.eqb LUA_YIELD Pos.eqb].
  destruct (Z.leb_spec 504 (LUA_VERSION_NUM b)) as [Hle|Hlt].
  - now rewrite (Hnres Hle), lua_pop_app.
  - unfold lua_gettop. cbn [stack]. rewrite length_app, <- Hmark.
    replace (_ - _) with (Z.of_nat (length above)) by lia.
    now rewrite lua_pop_app.
Qed.

(** C8, as amended.  Let [SDL_AppInit] have handed over [g0], and let [g]
    carry the marker it recorded.  When the resume yields and leaves the
    stack [below ++ above] with [below] as deep as the stack of [g0] (and,
    in a build against Lua 5.4 or later, reports as [nres] the number of
    values in [above]), [SDL_AppIterate] returns [SDL_APP_CONTINUE], the
    stack is [below], that is at the recorded depth with its contents
    below the marker as they were, and nothing else of the state has
    changed. *)
Theorem SDL_AppIterate_yield_back_to_marker
  (argv : list string) (p0 p1 p : Process) (g0 g : app_globals)
  (nres : Z) (L' : lua_State) (below above : list value) :
  SDL_AppInit b rt argv p0 = Done (SDL_APP_CONTINUE, Some g0) p1 ->
  stackpos g = stackpos g0 ->
  luax_resume rt (L g) 0 = (LUA_YIELD, nres, L') ->
  stack L' = below ++ above ->
  length below = length (stack (L g0)) ->
  (504 <= LUA_VERSION_NUM b -> nres = Z.of_nat (length above)) ->
  exists g' : app_globals,
    SDL_AppIterate b rt g p = Done (SDL_APP_CONTINUE, g') p /\
    stack (L g') = below /\
    lua_gettop (L g') = stackpos g0 /\
    stackpos g' = stackpos g0 /\
    heap (L g') = heap L' /\
    globals (L g') = globals L'.
Proof.
  intros Hinit Hg Hres Hstack Hdepth Hnres.
  apply SDL_AppInit_marker in Hinit as [Hmark _].
  assert (Hbelow : Z.of_nat (length below) = stackpos g).
  { rewrite Hg, Hmark, Hdepth. reflexivity. }
  destruct L' as [s h gl n]. cbn [stack] in Hstack. subst s.
  eexists. split;
    [apply (SDL_AppIterate_yield_eq g p nres below above h gl n Hres Hbelow Hnres)|].
  cbn [L stackpos stack heap globals]. unfold lua_gettop. cbn [stack].
  rewrite <- Hg. auto.
Qed.

(** From [SDL_AppInit] on: as long as each resume yields and leaves its
    values above what it found, every [SDL_AppIterate] hands back the very
    stack [SDL_AppInit] built. *)
Lemma SDL_AppIterate_keeps_booted_stack
  (argv : list string) (p0 p1 p : Process) (g : app_globals)
  (nres : Z) (above : list value) h gl n :
  SDL_AppInit b rt argv p0 = Done (SDL_APP_CONTINUE, Some g) p1 ->
  luax_resume rt (L g) 0
  = (LUA_YIELD, nres, mkState (stack (L g) ++ above) h gl n) ->
  (504 <= LUA_VERSION_NUM b -> nres = Z.of_nat (length above)) ->
  SDL_AppIterate b rt g p
  = Done (SDL_APP_CONTINUE, mkGlobals (mkState (stack (L g)) h gl n) (stackpos g)) p.
Proof.
  intros Hinit Hres Hnres.
  apply SDL_AppInit_marker in Hinit as [Hmark _].
  now apply (SDL_AppIterate_yield_eq g p nres (stack (L g)) above h gl n).
Qed.

(** C1, as amended.  When the resume does not yield, be it a normal
    completion or an error, [SDL_AppIterate] returns [SDL_APP_SUCCESS],
    leaves the interpreter as the resume left it (the error value stays on
    its stack) and prints nothing. *)
Theorem SDL_AppIterate_stops_with_success
  (g : app_globals) (p : Process) (status nres : Z) (L' : lua_State) :
  luax_resume rt (L g) 0 = (status, nres, L') ->
  status <> LUA_YIELD ->
  SDL_AppIterate b rt g p
  = Done (SDL_APP_SUCCESS, mkGlobals L' (stackpos g)) p.
Proof.
  intros Hres Hst. unfold SDL_AppIterate. rewrite Hres.
  apply Z.eqb_neq in Hst. now rewrite Hst.
Qed.

(** C10 (the code departs from it).  Whatever the state and the event,
    [SDL_AppEvent] reaches the end of its body without a [return]: the call
    yields no result value. *)
Theorem SDL_AppEvent_returns_no_value
  (appstate : option app_globals) (ev : SDL_Event) (p : Process) :
  SDL_AppEvent appstate ev p = Fault MissingReturn p /\
  forall (r : SDL_AppResult) (p' : Process),
    SDL_AppEvent appstate ev p <> Done r p'.
Proof. split; [reflexivity|]. intros r p'. discriminate. Qed.

(** C2 (the code departs from it).  [restartvalue] is a local of
    [SDL_AppInit], default-constructed at each call; with it (the empty
    variant being pushed as nil), lines 252-263 leave the module table
    without a [restart] field, set [_exe], and assign the empty variant
    again. *)
Theorem set_love_fields_restart_is_nil
  (s : list value) (r : nat) (t : table) h gl n :
  (forall L0 : lua_State, luax_pushvariant rt L0 Variant_default = push VNil L0) ->
  h !! r = Some t ->
  exists t' : table,
    set_love_fields rt (mkState (s ++ [VTable r]) h gl n) Variant_default
    = (mkState (s ++ [VTable r]) (<[r := t']> h) gl n, Variant_default) /\
    tfields t' !! "restart" = None /\
    fetch "restart" (tfields t') = VNil /\
    fetch "_exe" (tfields t') = VBoolean true.
Proof.
  intros Hpush Hr. unfold set_love_fields, lua_pushboolean.
  rewrite setfield_pushed, Hpush, setfield_pushed, alter_alter_eq.
  exists (table_setfield "restart" VNil (table_setfield "_exe" (VBoolean true) t)).
  split.
  - do 2 f_equal. apply map_eq. intros k. destruct (decide (k = r)) as [->|Hne].
    + now rewrite lookup_alter_eq, lookup_insert_eq, Hr.
    + now rewrite lookup_alter_ne, lookup_insert_ne by done.
  - cbn [table_setfield tfields store is_nil].
    split; [apply lookup_delete_eq|].
    split.
    + unfold fetch. now rewrite lookup_delete_eq.
    + unfold fetch. rewrite lookup_delete_ne by done.
      now rewrite lookup_insert_eq.
Qed.

End Driver.

Section History.

Variable b : Build.
Variable rt : Runtime.

Lemma uniform_ret {A} (a : A) : uniform (ret a).
Proof. intros p q H. now split. Qed.

Lemma uniform_crash {A} (f : fault) : uniform (@crash A f).
Proof. intros p q H. unfold crash, agree. reflexivity. Qed.

Lemma uniform_emit (e : event) : uniform (emit e).
Proof. intros p q H. now split. Qed.

Lemma uniform_bind {A B} (m : M A) (k : A -> M B) :
  uniform m -> (forall a : A, uniform (k a)) -> uniform (bind m k).
Proof.
  intros Hm Hk p q H. unfold bind. specialize (Hm p q H).
  destruct (m p) as [a p'|f p'], (m q) as [a' q'|f' q']; try contradiction.
  - destruct Hm as [<- H']. now apply Hk.
  - exact Hm.
Qed.

Lemma uniform_static_dropfilestr : uniform (static_dropfilestr rt).
Proof.
  intros p q H. unfold static_dropfilestr. rewrite <- H.
  destruct (dropfilestr p) eqn:E; unfold agree; cbn [dropfilestr]; auto.
  split; congruence.
Qed.

Create HintDb uniform.
#[local] Hint Resolve uniform_ret uniform_crash uniform_emit
  uniform_static_dropfilestr : uniform.

Ltac uniform :=
  repeat match goal with
    | |- uniform (bind _ _) => apply uniform_bind; [|intros ?]
    | |- uniform (if ?c then _ else _) => destruct c
    | |- uniform (match ?x with _ => _ end) => destruct x
    | |- uniform (printf _ _) => apply uniform_emit
    | |- uniform _ => solve [auto with uniform]
    end.

Lemma uniform_vector_insert (pos : nat) (x : string) (v : list string) :
  uniform (vector_insert pos x v).
Proof. unfold vector_insert. uniform. Qed.

Lemma uniform_get_app_arguments (argv : list string) :
  uniform (get_app_arguments b rt argv).
Proof.
  unfold get_app_arguments.
  destruct (if LOVE_MACOS b then _ else _) as [path fused].
  pose proof uniform_vector_insert. uniform.
Qed.

Lemma uniform_require (L0 : lua_State) (name : string) (nresults : nat) :
  uniform (require rt L0 name nresults).
Proof. unfold require, lua_call. uniform. Qed.

(** Of the process it is called in, [SDL_AppInit] reads the static
    [dropfilestr] and nothing else: whatever went on before (among it, a
    run that ended asking for a restart with a value), the status and the
    application state it returns are the same. *)
Lemma SDL_AppInit_reads_only_dropfilestr (argv : list string) (p q : Process) :
  dropfilestr p = dropfilestr q ->
  value_of (SDL_AppInit b rt argv p) = value_of (SDL_AppInit b rt argv q).
Proof.
  intros H.
  assert (U : uniform (SDL_AppInit b rt argv)).
  { unfold SDL_AppInit.
    pose proof uniform_require. pose proof uniform_get_app_arguments.
    unfold print_usage. cbn [set_love_fields]. uniform. }
  specialize (U p q H).
  destruct (SDL_AppInit b rt argv p), (SDL_AppInit b rt argv q);
    try contradiction; cbn [value_of]; [now destruct U as [-> _]|reflexivity].
Qed.

End History.

(** * The statements on concrete runs *)

Section Runs.

Import Scenario.

(** [love game] on the desktop build boots: the stack holds the boot
    function, the thread and the boot function again, and the marker is 3. *)
Example SDL_AppInit_boots :
  value_of (SDL_AppInit desktop (healthy resume_yield) games start)
  = Some (SDL_APP_CONTINUE, Some booted) /\
  stack (L booted) = [VFunction 0; VThread 0; VFunction 0] /\
  stackpos booted = 3 /\
  love_field (L booted) "_exe" = VBoolean true.
Proof. vm_compute. repeat split; reflexivity. Qed.

Lemma SDL_AppInit_version_mismatch_witness :
  cstring "12.0" /\ cstring "11.5" /\ "12.0" <> "11.5" /\
  SDL_AppInit desktop older games start
  = Done (SDL_APP_FAILURE, None)
         (logged start [EvPrintf (mismatch_text "12.0" "11.5")]).
Proof.
  split; [reflexivity|]. split; [reflexivity|]. split; [discriminate|].
  apply (SDL_AppInit_version_mismatch desktop older games start);
    [reflexivity | reflexivity | discriminate].
Defined.

Lemma SDL_AppInit_version_or_help_witness :
  LOVE_VERSION_STRING desktop = love_version (healthy resume_yield) /\
  SDL_AppInit desktop (healthy resume_yield) ["love"; "--version"] start
  = Done (SDL_APP_SUCCESS, None)
         (logged start [EvPrintf (version_text "12.0" "Bestest Friend")]) /\
  SDL_AppInit desktop (healthy resume_yield) ["love"; "--help"] start
  = Done (SDL_APP_SUCCESS, None) (logged start [EvPrintf usage]).
Proof.
  split; [reflexivity|]. split.
  - exact (proj1 (SDL_AppInit_version_or_help desktop (healthy resume_yield)
                    ["love"; "--version"] start eq_refl) eq_refl).
  - exact (proj2 (SDL_AppInit_version_or_help desktop (healthy resume_yield)
                    ["love"; "--help"] start eq_refl) eq_refl).
Defined.

Lemma SDL_AppInit_allocation_failure_witness :
  malloc no_memory = false /\
  SDL_AppInit desktop no_memory games start
  = Fault NullDereference (logged start [EvMalloc false; EvNewState true]).
Proof.
  split; [reflexivity|].
  apply (SDL_AppInit_allocation_failure desktop no_memory games start);
    [reflexivity | reflexivity | reflexivity | left; reflexivity].
Defined.

Lemma SDL_AppIterate_yield_back_to_marker_witness :
  SDL_AppInit lua54 (healthy resume_yield) games start
  = Done (SDL_APP_CONTINUE, Some booted)
         (logged start [EvMalloc true; EvNewState true]) /\
  luax_resume (healthy resume_yield) (L booted) 0
  = (LUA_YIELD, 2,
     with_stack (L booted) (stack (L booted) ++ [VNumber 1; VNumber 2])) /\
  exists g' : app_globals,
    SDL_AppIterate lua54 (healthy resume_yield) booted start
    = Done (SDL_APP_CONTINUE, g') start /\
    stack (L g') = stack (L booted) /\
    lua_gettop (L g') = stackpos booted.
Proof.
  assert (Hrun : SDL_AppInit lua54 (healthy resume_yield) games start
                 = Done (SDL_APP_CONTINUE, Some booted)
                        (logged start [EvMalloc true; EvNewState true]))
    by (vm_compute; reflexivity).
  split; [exact Hrun|]. split; [reflexivity|].
  destruct (SDL_AppIterate_yield_back_to_marker
              lua54 (healthy resume_yield) games start _ start booted booted 2
              (with_stack (L booted) (stack (L booted) ++ [VNumber 1; VNumber 2]))
              (stack (L booted)) [VNumber 1; VNumber 2] Hrun)
    as (g' & Hiter & Hstack & Htop & _).
  - reflexivity.
  - reflexivity.
  - reflexivity.
  - reflexivity.
  - intros _. reflexivity.
  - exists g'. auto.
Defined.

(** C8, at two yields after [love game] has booted with the marker 3.  In
    a build against Lua 5.4 a resume that leaves two values and reports one
    leaves the stack at depth 4; in a build against an older Lua a resume
    that leaves the stack empty leaves it at depth 2.  In both cases
    [SDL_AppIterate] answers [SDL_APP_CONTINUE] with a stack that is not at
    the marker. *)
Lemma SDL_AppIterate_yield_misses_marker :
  value_of (SDL_AppInit lua54 (healthy resume_miscount) games start)
  = Some (SDL_APP_CONTINUE, Some booted) /\
  value_of (SDL_AppInit desktop (healthy resume_short) games start)
  = Some (SDL_APP_CONTINUE, Some booted) /\
  stackpos booted = 3 /\
  (exists g' : app_globals,
      SDL_AppIterate lua54 (healthy resume_miscount) booted start
      = Done (SDL_APP_CONTINUE, g') start /\
      lua_gettop (L g') = 4 /\
      lua_gettop (L g') <> stackpos booted) /\
  (exists g' : app_globals,
      SDL_AppIterate desktop (healthy resume_short) booted start
      = Done (SDL_APP_CONTINUE, g') start /\
      stack (L g') = [VNil; VNil] /\
      lua_gettop (L g') <> stackpos booted).
Proof.
  split; [vm_compute; reflexivity|]. split; [vm_compute; reflexivity|].
  split; [vm_compute; reflexivity|]. split.
  - eexists. split; [reflexivity|]. split; vm_compute; [reflexivity|discriminate].
  - eexists. split; [reflexivity|]. split; vm_compute; [reflexivity|discriminate].
Qed.

Lemma SDL_AppIterate_stops_with_success_witness :
  LUA_ERRRUN <> LUA_YIELD /\
  SDL_AppIterate desktop (healthy resume_error) booted start
  = Done (SDL_APP_SUCCESS,
          mkGlobals (with_stack (L booted)
                       (stack (L booted) ++ [VString "main.lua:1: boom"]))
                    (stackpos booted))
         start.
Proof.
  split; [discriminate|].
  apply (SDL_AppIterate_stops_with_success desktop (healthy resume_error)
           booted start LUA_ERRRUN 1);
    [reflexivity | discriminate].
Defined.

Lemma set_love_fields_restart_is_nil_witness :
  exists t' : table,
    set_love_fields (healthy resume_restart)
                    (mkState ([] ++ [VTable 0%nat]) {[ 0%nat := empty_table ]} ∅ 0)
                    Variant_default
    = (mkState ([] ++ [VTable 0%nat]) (<[0%nat := t']> {[ 0%nat := empty_table ]}) ∅ 0,
       Variant_default) /\
    tfields t' !! "restart" = None /\
    fetch "restart" (tfields t') = VNil /\
    fetch "_exe" (tfields t') = VBoolean true.
Proof.
  apply (set_love_fields_restart_is_nil (healthy resume_restart)
           [] 0%nat empty_table {[ 0%nat := empty_table ]} ∅ 0%nat).
  - intros L0. reflexivity.
  - vm_compute. reflexivity.
Defined.

(** C1, at a script that raises on its first statement: the resume ends
    with [LUA_ERRRUN]; [SDL_AppIterate] answers [SDL_APP_SUCCESS], not
    [SDL_APP_FAILURE], and the trace of the process is still empty. *)
Lemma SDL_AppIterate_error_reported_as_success :
  luax_resume (healthy resume_error) (L booted) 0
  = (LUA_ERRRUN, 1,
     with_stack (L booted) (stack (L booted) ++ [VString "main.lua:1: boom"])) /\
  (exists g' : app_globals,
      SDL_AppIterate desktop (healthy resume_error) booted start
      = Done (SDL_APP_SUCCESS, g') start) /\
  trace start = [] /\
  ~ (exists (g' : app_globals) (p' : Process),
        SDL_AppIterate desktop (healthy resume_error) booted start
        = Done (SDL_APP_FAILURE, g') p').
Proof.
  split; [reflexivity|]. split; [eexists; reflexivity|]. split; [reflexivity|].
  intros (g' & p' & H). unfold SDL_AppIterate in H. cbn in H. discriminate H.
Qed.

(** C3, at [love --version] with a library of another version: the
    version comparison comes first, the mismatch is printed and the status is
    [SDL_APP_FAILURE]. *)
Lemma SDL_AppInit_version_flag_behind_gate :
  SDL_AppInit desktop older ["love"; "--version"] start
  = Done (SDL_APP_FAILURE, None)
         (logged start [EvPrintf (mismatch_text "12.0" "11.5")]) /\
  ~ (exists (st : option app_globals) (p' : Process),
        SDL_AppInit desktop older ["love"; "--version"] start
        = Done (SDL_APP_SUCCESS, st) p').
Proof.
  assert (H : SDL_AppInit desktop older ["love"; "--version"] start
              = Done (SDL_APP_FAILURE, None)
                     (logged start [EvPrintf (mismatch_text "12.0" "11.5")]))
    by (vm_compute; reflexivity).
  split; [exact H|]. intros (st & p' & H'). rewrite H in H'. discriminate H'.
Qed.

(** C4, at a [-psn_] argument in second user position: it is dropped. *)
Lemma get_app_arguments_drops_later_psn :
  get_app_arguments macos (healthy resume_yield)
                    ["love"; "game.love"; "-psn_0_12345"] start
  = Done ["love"; "game.love"]
         (logged start [EvNewArgv ["love"; "game.love"]]) /\
  ~ In "-psn_0_12345" ["love"; "game.love"].
Proof.
  split; [vm_compute; reflexivity|].
  intros [H|[H|[]]]; discriminate H.
Qed.

(** C5, at [love game]: the key 0 of [arg] holds nothing; the marker is
    under -1 and the executable path under -2. *)
Lemma global_arg_has_nothing_at_0 :
  value_of (SDL_AppInit desktop (healthy resume_yield) games start)
  = Some (SDL_APP_CONTINUE, Some booted) /\
  global_arg_entry (L booted) 0 = VNil /\
  global_arg_entry (L booted) 0 <> VString "embedded boot.lua" /\
  global_arg_entry (L booted) (-1) = VString "embedded boot.lua" /\
  global_arg_entry (L booted) (-2) = VString "love" /\
  global_arg_entry (L booted) 1 = VString "game".
Proof. vm_compute. repeat split; try reflexivity. discriminate. Qed.

(** C9, at a failing [malloc] and at a failing [luaL_newstate]: the call
    ends on the null pointer and returns no status. *)
Lemma SDL_AppInit_out_of_memory_is_not_failure :
  SDL_AppInit desktop no_memory games start
  = Fault NullDereference (logged start [EvMalloc false; EvNewState true]) /\
  SDL_AppInit desktop no_state games start
  = Fault NullDereference (logged start [EvMalloc true; EvNewState false]) /\
  ~ (exists (st : option app_globals) (p' : Process),
        SDL_AppInit desktop no_memory games start
        = Done (SDL_APP_FAILURE, st) p').
Proof.
  assert (H : SDL_AppInit desktop no_memory games start
              = Fault NullDereference
                      (logged start [EvMalloc false; EvNewState true]))
    by (vm_compute; reflexivity).
  split; [exact H|]. split; [vm_compute; reflexivity|].
  intros (st & p' & H'). rewrite H in H'. discriminate H'.
Qed.

(** C2, on two cycles in one process: the boot function of the first run
    returns ["restart"] and a value; the second [SDL_AppInit] still sets
    [love.restart] to nil. *)
Example restart_value_is_lost :
  match value_of (restart_cycle desktop (healthy resume_restart) games start) with
  | Some (SDL_APP_CONTINUE, Some g) =>
      love_field (L g) "restart" = VNil /\
      love_field (L g) "_exe" = VBoolean true
  | _ => False
  end.
Proof. vm_compute. split; reflexivity. Qed.

End Runs.

(** * Further properties of the launcher *)

Section PreprocessorCases.

Variable b : Build.
Variable rt : Runtime.

Lemma copy_arguments_eq (argv : list string) :
  copy_arguments 0 argv
  = match argv with
    | [] => []
    | argv0 :: rest => argv0 :: List.filter kept rest
    end.
Proof. destruct argv; [reflexivity|apply copy_arguments_0]. Qed.

Lemma filter_kept_all (args : list string) :
  Forall (fun a => String.prefix "-psn_" a = false) args ->
  List.filter kept args = args.
Proof.
  induction 1 as [|a args Ha _ IH]; [reflexivity|].
  cbn [List.filter]. unfold kept at 1. rewrite Ha. cbn [negb]. now rewrite IH.
Qed.

(** X1.  A command line without [-psn_] argument past the executable path goes
    through the copying loop unchanged. *)
Theorem copy_arguments_without_psn (argv : list string) :
  Forall (fun a => String.prefix "-psn_" a = false) (tail argv) ->
  copy_arguments 0 argv = argv.
Proof.
  intros H. rewrite copy_arguments_eq. destruct argv as [|argv0 rest];
    [reflexivity|]. cbn [tail] in H. now rewrite filter_kept_all.
Qed.

(** X2.  The copying loop only removes: its result is a subsequence of the
    vector, and copying the result again changes nothing. *)
Theorem copy_arguments_sublist_idempotent (argv : list string) :
  sublist (copy_arguments 0 argv) argv /\
  copy_arguments 0 (copy_arguments 0 argv) = copy_arguments 0 argv.
Proof.
  rewrite !copy_arguments_eq. destruct argv as [|argv0 rest]; [split; constructor|].
  split.
  - apply sublist_skip. induction rest as [|a rest IH]; [constructor|].
    cbn [List.filter]. destruct (kept a); [now apply sublist_skip|now apply sublist_cons].
  - f_equal. induction rest as [|a rest IH]; [reflexivity|].
    cbn [List.filter]. destruct (kept a) eqn:Ha; [|exact IH].
    cbn [List.filter]. rewrite Ha. now f_equal.
Qed.

(** X3.  Where no platform has anything to add (a build for neither macOS nor
    iOS, iOS without a bundled game, macOS without one and attached to a
    terminal), [get_app_arguments] returns the copied vector, the empty
    vector included, and does not ask for drop events. *)
Theorem get_app_arguments_nothing_inserted (argv : list string) (p : Process) :
  LOVE_MACOS b = false /\ LOVE_IOS b = false \/
  LOVE_MACOS b = false /\ LOVE_IOS b = true /\ fst (ios_getLoveInResources rt) = "" \/
  LOVE_MACOS b = true /\ macos_getLoveInResources rt = "" /\ isatty_stdin rt = true ->
  get_app_arguments b rt argv p
  = Done (copy_arguments 0 argv) (logged p [EvNewArgv (copy_arguments 0 argv)]).
Proof.
  unfold get_app_arguments.
  intros [[-> ->]|[(-> & -> & Hios)|(-> & -> & ->)]]; try reflexivity.
  destruct (ios_getLoveInResources rt) as [path fused]. cbn [fst] in Hios.
  subst path. reflexivity.
Qed.

(** X4.  With a game in the application bundle, the path of the game comes
    right after the executable path, followed by [--fused] on macOS always
    and on iOS when the lookup says so; the drop events are not asked for. *)
Theorem get_app_arguments_bundled
  (argv0 : string) (rest : list string) (p : Process) (path : string) (fused : bool) :
  path <> "" ->
  LOVE_MACOS b = true /\ macos_getLoveInResources rt = path /\ fused = true \/
  LOVE_MACOS b = false /\ LOVE_IOS b = true /\
    ios_getLoveInResources rt = (path, fused) ->
  let out := argv0 :: path :: (if fused then ["--fused"] else [])
                   ++ List.filter kept rest in
  get_app_arguments b rt (argv0 :: rest) p = Done out (logged p [EvNewArgv out]).
Proof.
  intros Hpath Hcase out. subst out. unfold get_app_arguments.
  rewrite copy_arguments_0.
  destruct path as [|c path]; [congruence|].
  destruct Hcase as [(-> & -> & ->)|(-> & -> & ->)].
  - reflexivity.
  - destruct fused; reflexivity.
Qed.

(** X5.  The same lookup on an empty vector: the insertion position
    [begin() + 1] lies past [end()]. *)
Theorem get_app_arguments_bundled_empty_vector
  (p : Process) (path : string) (fused : bool) :
  path <> "" ->
  LOVE_MACOS b = true /\ macos_getLoveInResources rt = path \/
  LOVE_MACOS b = false /\ LOVE_IOS b = true /\
    ios_getLoveInResources rt = (path, fused) ->
  get_app_arguments b rt [] p = Fault InvalidIterator p.
Proof.
  intros Hpath Hcase. unfold get_app_arguments.
  destruct path as [|c path]; [congruence|].
  destruct Hcase as [(-> & ->)|(-> & -> & ->)]; reflexivity.
Qed.

Lemma get_app_arguments_dropfile_eq
  (argv0 : string) (rest : list string) (p : Process) :
  LOVE_MACOS b = true ->
  macos_getLoveInResources rt = "" ->
  isatty_stdin rt = false ->
  let s := default (macos_checkDropEvents rt) (dropfilestr p) in
  let out := argv0 :: (if is_empty s then [] else [s]) ++ List.filter kept rest in
  get_app_arguments b rt (argv0 :: rest) p
  = Done out (mkProcess (trace p ++ [EvNewArgv out]) (Some s)).
Proof.
  intros Hmac Hpath Htty s out. subst s out. unfold get_app_arguments.
  rewrite copy_arguments_0, Hmac, Hpath, Htty. cbn [is_empty negb].
  unfold bind at 1 2. unfold static_dropfilestr.
  destruct p as [tr [s|]]; cbn [dropfilestr default trace].
  - destruct s; reflexivity.
  - destruct (macos_checkDropEvents rt); reflexivity.
Qed.

End PreprocessorCases.

(** X6.  On macOS, without a bundled game and without a terminal, the drop
    events are asked for once in the life of the process: the first call
    of [get_app_arguments] stores the answer, and a later call inserts the
    stored path again, whatever the drop events would answer by then. *)
Theorem get_app_arguments_dropfile_asked_once
  (b : Build) (rt rt' : Runtime) (argv0 : string) (rest rest' : list string)
  (p p1 : Process) (out : list string) :
  LOVE_MACOS b = true ->
  macos_getLoveInResources rt = "" -> isatty_stdin rt = false ->
  macos_getLoveInResources rt' = "" -> isatty_stdin rt' = false ->
  dropfilestr p = None ->
  get_app_arguments b rt (argv0 :: rest) p = Done out p1 ->
  let s := macos_checkDropEvents rt in
  out = argv0 :: (if is_empty s then [] else [s]) ++ List.filter kept rest /\
  dropfilestr p1 = Some s /\
  exists p2 : Process,
    get_app_arguments b rt' (argv0 :: rest') p1
    = Done (argv0 :: (if is_empty s then [] else [s]) ++ List.filter kept rest') p2 /\
    dropfilestr p2 = Some s.
Proof.
  intros Hmac Hpath Htty Hpath' Htty' Hnone Hrun s. subst s.
  rewrite (get_app_arguments_dropfile_eq b rt argv0 rest p Hmac Hpath Htty) in Hrun.
  rewrite Hnone in Hrun. cbn [default] in Hrun.
  apply Done_inj in Hrun as [<- <-]. split; [reflexivity|]. split; [reflexivity|].
  eexists. split.
  - rewrite (get_app_arguments_dropfile_eq b rt' argv0 rest' _ Hmac Hpath' Htty').
    cbn [dropfilestr default]. reflexivity.
  - reflexivity.
Qed.

Section InterpreterSetup.

Variable rt : Runtime.

Lemma lua_getglobal_eq (s : list value) h g n (name : string) :
  lua_getglobal (mkState s h g n) name = mkState (s ++ [fetch name g]) h g n.
Proof. reflexivity. Qed.

(** X7.  With tables for [package] and [package.preload], [love_preload] sets
    [package.preload[name]] to the loader and nothing else: the stack, the
    globals and every other entry of every table are as before. *)
Theorem love_preload_registers_loader
  (s : list value) h g n (rp rq : nat) (tp tq : table) (f name : string) :
  g !! "package" = Some (VTable rp) ->
  h !! rp = Some tp ->
  tfields tp !! "preload" = Some (VTable rq) ->
  h !! rq = Some tq ->
  love_preload (mkState s h g n) f name
  = mkState s (<[rq := mkTable (tarray tq) (<[name := VCFunction f]> (tfields tq))]> h)
            g n.
Proof.
  intros Hg Hp Hpre Hq. unfold love_preload.
  rewrite lua_getglobal_eq. unfold fetch at 1. rewrite Hg. cbn [from_option id].
  unfold lua_getfield. rewrite index2value_top. cbn [heap]. rewrite Hp.
  unfold fetch. rewrite Hpre. cbn [from_option id].
  unfold lua_pushcfunction.
  replace (push (VTable rq) (mkState (s ++ [VTable rp]) h g n))
    with (mkState ((s ++ [VTable rp]) ++ [VTable rq]) h g n) by reflexivity.
  rewrite setfield_pushed, <- app_assoc.
  rewrite (lua_pop_app s [VTable rp; VTable rq]).
  f_equal. apply map_eq. intros k. destruct (decide (k = rq)) as [->|Hne].
  - now rewrite lookup_alter_eq, lookup_insert_eq, Hq.
  - now rewrite lookup_alter_ne, lookup_insert_ne by done.
Qed.

Lemma set_global_arg_nil_eq (s : list value) h g n :
  set_global_arg (mkState s h g n) []
  = mkState s
      (<[fresh (dom h)
         := table_seti (-1) (VString "embedded boot.lua") empty_table]> h)
      (<["arg" := VTable (fresh (dom h))]> g) n.
Proof.
  unfold set_global_arg, lua_newtable, push, with_heap, with_stack.
  cbn [stack heap globals nthreads tail push_arguments].
  rewrite rawseti_pushed.
  unfold lua_setglobal. rewrite index2value_top.
  cbn [stack heap globals nthreads store is_nil].
  rewrite lua_pop_1. f_equal. now rewrite alter_insert_eq.
Qed.

(** X8.  For an empty vector ([argc] is 0) the global [arg] holds the marker
    under -1 and nothing else: no executable path under -2. *)
Theorem set_global_arg_empty_vector (L0 : lua_State) (k : Z) :
  global_arg_entry (set_global_arg L0 []) k
  = if decide (k = -1) then VString "embedded boot.lua" else VNil.
Proof.
  destruct L0 as [s h g n]. rewrite set_global_arg_nil_eq.
  unfold global_arg_entry. cbn [globals heap].
  rewrite !lookup_insert_eq. cbn [table_seti tarray empty_table store is_nil].
  unfold fetch. destruct (decide (k = -1)) as [->|Hne].
  - now rewrite lookup_insert_eq.
  - now rewrite lookup_insert_ne, lookup_empty by done.
Qed.

(** X9.  Lines 226-245 make one new table and bind one global: the stack, the
    tables that were there and the globals other than [arg] are as before,
    whatever [arg] was bound to. *)
Theorem set_global_arg_frame (L0 : lua_State) (argv : list string) :
  stack (set_global_arg L0 argv) = stack L0 /\
  nthreads (set_global_arg L0 argv) = nthreads L0 /\
  (forall r : nat, is_Some (heap L0 !! r) ->
                   heap (set_global_arg L0 argv) !! r = heap L0 !! r) /\
  (forall name : string, name <> "arg" ->
                         globals (set_global_arg L0 argv) !! name
                         = globals L0 !! name).
Proof.
  destruct L0 as [s h g n].
  assert (Hfresh : forall r : nat, is_Some (h !! r) -> fresh (dom h) <> r).
  { intros r Hr <-. apply (is_fresh (dom h)). now apply elem_of_dom. }
  destruct argv as [|argv0 rest];
    rewrite ?set_global_arg_nil_eq, ?set_global_arg_eq;
    cbn [stack heap globals nthreads];
    (split; [reflexivity|]); (split; [reflexivity|]);
    (split; [intros r Hr; apply lookup_insert_ne; now apply Hfresh
            |intros name Hname; now apply lookup_insert_ne]).
Qed.

(** X10.  Lines 252-263 with a restart value at hand: the value the variant
    stands for becomes [love.restart], [love._exe] becomes true, the other
    fields of the module table stay, and the variant is empty afterwards. *)
Theorem set_love_fields_installs_restart
  (s : list value) (r : nat) (t : table) h gl n (rv : Variant) (v : value) :
  (forall L0 : lua_State, luax_pushvariant rt L0 rv = push v L0) ->
  h !! r = Some t ->
  exists t' : table,
    set_love_fields rt (mkState (s ++ [VTable r]) h gl n) rv
    = (mkState (s ++ [VTable r]) (<[r := t']> h) gl n, Variant_default) /\
    fetch "restart" (tfields t') = v /\
    fetch "_exe" (tfields t') = VBoolean true /\
    tarray t' = tarray t /\
    forall k : string,
      k <> "restart" -> k <> "_exe" -> fetch k (tfields t') = fetch k (tfields t).
Proof.
  intros Hpush Hr. unfold set_love_fields, lua_pushboolean.
  rewrite setfield_pushed, Hpush, setfield_pushed, alter_alter_eq.
  exists (table_setfield "restart" v (table_setfield "_exe" (VBoolean true) t)).
  split.
  - do 2 f_equal. apply map_eq. intros k. destruct (decide (k = r)) as [->|Hne].
    + now rewrite lookup_alter_eq, lookup_insert_eq, Hr.
    + now rewrite lookup_alter_ne, lookup_insert_ne by done.
  - cbn [table_setfield tfields tarray].
    split; [apply fetch_store_eq|].
    split; [rewrite fetch_store_ne by done; apply fetch_store_eq|].
    split; [reflexivity|].
    intros k Hk1 Hk2. now rewrite !fetch_store_ne by done.
Qed.

End InterpreterSetup.

Section Lifecycle.

Variable b : Build.
Variable rt : Runtime.

Lemma emit_Done (e : event) (p p' : Process) (x : unit) :
  emit e p = Done x p' -> p' = logged p [e].
Proof. unfold emit. intros H. now apply Done_inj in H as [_ <-]. Qed.

Lemma ret_Done {A} (a a' : A) (p p' : Process) :
  ret a p = Done a' p' -> a = a' /\ p = p'.
Proof. unfold ret. apply Done_inj. Qed.

Lemma require_Done (L0 L' : lua_State) (name : string) (k : nat) (p p' : Process) :
  require rt L0 name k p = Done L' p' -> p' = p.
Proof.
  unfold require, lua_call.
  destruct (lua_callee _ _ _ _) as [results L1|err].
  - intros H. now apply ret_Done in H as [_ <-].
  - unfold crash. congruence.
Qed.

Lemma vector_insert_Done (pos : nat) (x : string) (v out : list string)
  (p p' : Process) :
  vector_insert pos x v p = Done out p' -> p' = p.
Proof.
  unfold vector_insert. destruct (_ <=? _)%nat.
  - intros H. now apply ret_Done in H as [_ <-].
  - unfold crash. congruence.
Qed.

Lemma static_dropfilestr_Done (s : string) (p p' : Process) :
  static_dropfilestr rt p = Done s p' -> trace p' = trace p.
Proof.
  unfold static_dropfilestr. destruct (dropfilestr p);
    intros H; now apply Done_inj in H as [_ <-].
Qed.

Lemma get_app_arguments_trace (argv out : list string) (p p' : Process) :
  get_app_arguments b rt argv p = Done out p' ->
  trace p' = trace p ++ [EvNewArgv out].
Proof.
  unfold get_app_arguments.
  destruct (if LOVE_MACOS b then _ else _) as [path fused].
  intros H. apply bind_Done in H as (new_argv & q & Hins & H).
  apply bind_Done in H as (? & q' & Hemit & H).
  apply ret_Done in H as [<- <-]. apply emit_Done in Hemit as ->.
  cbn [logged trace]. f_equal.
  destruct (negb (is_empty path)).
  - apply bind_Done in Hins as (temp1 & q1 & H1 & Hins).
    apply vector_insert_Done in H1 as ->.
    destruct fused.
    + now apply vector_insert_Done in Hins as ->.
    + now apply ret_Done in Hins as [_ <-].
  - destruct (LOVE_MACOS b); [|now apply ret_Done in Hins as [_ <-]].
    destruct (negb (isatty_stdin rt)); [|now apply ret_Done in Hins as [_ <-]].
    apply bind_Done in Hins as (s & q1 & H1 & Hins).
    apply static_dropfilestr_Done in H1 as <-.
    destruct (negb (is_empty s)).
    + now apply vector_insert_Done in Hins as ->.
    + now apply ret_Done in Hins as [_ <-].
Qed.

(** What a returning call of [SDL_AppInit] can be. *)
Lemma SDL_AppInit_Done_inv
  (argv : list string) (p p' : Process) (r : SDL_AppResult)
  (st : option app_globals) :
  SDL_AppInit b rt argv p = Done (r, st) p' ->
  (strcmp (LOVE_VERSION_STRING b) (love_version rt) <> 0 /\
   r = SDL_APP_FAILURE /\ st = None /\
   p' = logged p [EvPrintf (mismatch_text (LOVE_VERSION_STRING b)
                                          (love_version rt))]) \/
  (strcmp (LOVE_VERSION_STRING b) (love_version rt) = 0 /\
   (first_argument_is argv "--version" = true \/
    first_argument_is argv "--help" = true) /\
   r = SDL_APP_SUCCESS /\ st = None) \/
  (strcmp (LOVE_VERSION_STRING b) (love_version rt) = 0 /\
   first_argument_is argv "--version" = false /\
   first_argument_is argv "--help" = false /\
   malloc rt = true /\ is_Some (luaL_newstate rt) /\
   r = SDL_APP_CONTINUE /\
   exists (g : app_globals) (new_argv : list string),
     st = Some g /\
     (LOVE_LEGENDARY_APP_ARGV_HACK b = false -> new_argv = argv) /\
     trace p' = trace p ++ [EvMalloc true; EvNewState true]
                        ++ argv_events b new_argv).
Proof.
  unfold SDL_AppInit.
  destruct (Z.eqb_spec (strcmp (LOVE_VERSION_STRING b) (love_version rt)) 0)
    as [Hv|Hv]; cbn [negb].
  2:{ intros H. apply bind_Done in H as (? & q & Hq & H).
      apply emit_Done in Hq as ->. apply ret_Done in H as [E <-].
      left. split; [exact Hv|]. now inversion E. }
  destruct (first_argument_is argv "--version") eqn:Hver.
  { intros H. apply bind_Done in H as (? & ? & _ & H).
    apply bind_Done in H as (? & ? & _ & H). apply ret_Done in H as [E _].
    right; left. inversion E. auto. }
  destruct (first_argument_is argv "--help") eqn:Hhelp.
  { intros H. apply bind_Done in H as (? & ? & _ & H).
    apply ret_Done in H as [E _]. right; left. inversion E. auto. }
  intros H. right; right. apply bind_Done in H as (? & q1 & Hq1 & H).
  apply emit_Done in Hq1 as ->.
  apply bind_Done in H as (? & q2 & Hq2 & H).
  apply emit_Done in Hq2 as ->.
  destruct (malloc rt) eqn:Hm; cbn [negb] in H; [|unfold crash in H; congruence].
  destruct (luaL_newstate rt) as [L0|] eqn:HL; [|unfold crash in H; congruence].
  apply bind_Done in H as (L1 & q3 & Hq3 & H).
  apply require_Done in Hq3 as ->.
  apply bind_Done in H as (new_argv & q4 & Hq4 & H).
  apply bind_Done in H as (L2 & q5 & Hq5 & H).
  apply require_Done in Hq5 as ->.
  cbn [set_love_fields] in H.
  apply bind_Done in H as (L3 & q6 & Hq6 & H).
  apply require_Done in Hq6 as ->.
  apply bind_Done in H as (? & q7 & Hq7 & H).
  apply ret_Done in H as [E <-].
  apply (f_equal (fun x => (fst x, snd x))) in E. cbn [fst snd] in E.
  assert (Hr : SDL_APP_CONTINUE = r) by congruence.
  assert (Hst : exists g, st = Some g) by (injection E as _ <-; eauto).
  clear E. destruct Hst as [g Hst].
  split; [exact Hv|]. split; [reflexivity|]. split; [reflexivity|].
  split; [reflexivity|]. split; [now eexists|]. split; [now symmetry|].
  exists g, new_argv. split; [exact Hst|].
  unfold argv_events.
  destruct (LOVE_LEGENDARY_APP_ARGV_HACK b); cbn [andb] in *.
  - split; [discriminate|].
    apply get_app_arguments_trace in Hq4.
    destruct (negb (LOVE_IOS b)).
    + apply emit_Done in Hq7 as ->. cbn [logged trace] in *. rewrite Hq4.
      cbn [bool_decide]. rewrite <- !app_assoc. reflexivity.
    + apply ret_Done in Hq7 as [_ <-]. rewrite Hq4. cbn [logged trace].
      rewrite <- !app_assoc. reflexivity.
  - apply ret_Done in Hq4 as [<- <-]. apply ret_Done in Hq7 as [_ <-].
    split; [reflexivity|]. cbn [logged trace]. rewrite <- !app_assoc. reflexivity.
Qed.

(** X11.  [SDL_AppInit] returns [SDL_APP_FAILURE] from the version comparison
    only: then the two versions differ, no state is handed over and the
    mismatch message is all that happened. *)
Theorem SDL_AppInit_failure_means_mismatch
  (argv : list string) (p p' : Process) (st : option app_globals) :
  SDL_AppInit b rt argv p = Done (SDL_APP_FAILURE, st) p' ->
  strcmp (LOVE_VERSION_STRING b) (love_version rt) <> 0 /\
  st = None /\
  p' = logged p [EvPrintf (mismatch_text (LOVE_VERSION_STRING b)
                                         (love_version rt))].
Proof.
  intros H. apply SDL_AppInit_Done_inv in H
    as [(Hv & _ & Hst & Hp)|[(_ & _ & Hr & _)|(_ & _ & _ & _ & _ & Hr & _)]];
    [auto|discriminate Hr|discriminate Hr].
Qed.

Lemma first_argument_is_inv (argv : list string) (flag : string) :
  first_argument_is argv flag = true ->
  exists a : string, argv !! 1%nat = Some a /\ strcmp a flag = 0.
Proof.
  unfold first_argument_is. destruct (argv !! 1%nat) as [a|]; [|discriminate].
  intros H. exists a. split; [reflexivity|]. now apply Z.eqb_eq.
Qed.

(** X12.  [SDL_AppInit] returns [SDL_APP_SUCCESS] for the two flags only: then
    the versions compare equal, no state is handed over, and the argument
    at index 1 compares equal to [--version] or to [--help] (a flag at
    another index, or with more text after it, does not count). *)
Theorem SDL_AppInit_success_means_flag
  (argv : list string) (p p' : Process) (st : option app_globals) :
  SDL_AppInit b rt argv p = Done (SDL_APP_SUCCESS, st) p' ->
  strcmp (LOVE_VERSION_STRING b) (love_version rt) = 0 /\
  st = None /\
  exists a : string,
    argv !! 1%nat = Some a /\
    (strcmp a "--version" = 0 \/ strcmp a "--help" = 0) /\
    (cstring a -> a = "--version" \/ a = "--help").
Proof.
  intros H. apply SDL_AppInit_Done_inv in H
    as [(_ & Hr & _)|[(Hv & Hflag & _ & Hst)|(_ & _ & _ & _ & _ & Hr & _)]];
    [discriminate Hr| |discriminate Hr].
  split; [exact Hv|]. split; [exact Hst|].
  destruct Hflag as [Hf|Hf]; apply first_argument_is_inv in Hf as (a & Ha & Hcmp);
    exists a; (split; [exact Ha|]); (split; [auto|]); intros Hc.
  - left. now apply strcmp_eq.
  - right. now apply strcmp_eq.
Qed.

(** X13.  [SDL_AppInit] hands over a state exactly when it returns
    [SDL_APP_CONTINUE].  After any other return the state pointer is still
    null, and a call of [SDL_AppQuit] with it dereferences the null
    pointer. *)
Theorem SDL_AppQuit_after_early_exit
  (argv : list string) (p p' : Process) (r : SDL_AppResult)
  (st : option app_globals) :
  SDL_AppInit b rt argv p = Done (r, st) p' ->
  (r = SDL_APP_CONTINUE /\ exists g : app_globals, st = Some g) \/
  (r <> SDL_APP_CONTINUE /\ st = None /\
   SDL_AppQuit st r p' = Fault NullDereference p').
Proof.
  intros H. apply SDL_AppInit_Done_inv in H
    as [(_ & -> & -> & _)|[(_ & _ & -> & ->)|(_ & _ & _ & _ & _ & -> & g & _ & -> & _)]].
  - right. repeat split; discriminate.
  - right. repeat split; discriminate.
  - left. eauto.
Qed.

(** X14.  A run of [SDL_AppInit] that returns [SDL_APP_CONTINUE] followed by
    [SDL_AppQuit], in the events recorded: the application state and the
    interpreter are acquired once each and released in the reverse order,
    and the copied argument vector is deleted in between, except on iOS,
    where it is never deleted. *)
Theorem SDL_AppInit_then_SDL_AppQuit
  (argv : list string) (p p1 : Process) (g : app_globals) (r : SDL_AppResult) :
  SDL_AppInit b rt argv p = Done (SDL_APP_CONTINUE, Some g) p1 ->
  exists (new_argv : list string) (p2 : Process),
    SDL_AppQuit (Some g) r p1 = Done tt p2 /\
    (LOVE_LEGENDARY_APP_ARGV_HACK b = false -> new_argv = argv) /\
    trace p2 = trace p ++ [EvMalloc true; EvNewState true]
                       ++ argv_events b new_argv
                       ++ [EvLuaClose; EvFree].
Proof.
  intros H. apply SDL_AppInit_Done_inv in H
    as [(_ & Hr & _)|[(_ & _ & Hr & _)|(_ & _ & _ & _ & _ & _ & g' & new_argv & _ & Hargv & Htr)]];
    [discriminate Hr|discriminate Hr|].
  exists new_argv. eexists. split; [reflexivity|]. split; [exact Hargv|].
  cbn [trace]. rewrite Htr, <- !app_assoc. reflexivity.
Qed.

End Lifecycle.


Section Bootstrapping.

Variable b : Build.
Variable rt : Runtime.
















End Bootstrapping.

Section Frames.

Variable b : Build.
Variable rt : Runtime.

(** X17.  When [SDL_AppInit] returns [SDL_APP_CONTINUE], the marker it recorded
    is the depth of the stack it hands over, and the top of that stack is
    the boot function, the new thread and the boot function again. *)
Theorem SDL_AppInit_hands_over_marked_stack
  (argv : list string) (p p' : Process) (g : app_globals) :
  SDL_AppInit b rt argv p = Done (SDL_APP_CONTINUE, Some g) p' ->
  stackpos g = lua_gettop (L g) /\
  exists (s : list value) (f : value) (t : nat),
    stack (L g) = s ++ [f; VThread t; f].
Proof. apply SDL_AppInit_marker. Qed.

(** X19.  In a build against a Lua older than 5.4, a resume that yields and
    leaves the stack lower than the marker makes the count handed to
    [lua_pop] negative: the stack is not brought back to the marker but
    cut or filled with nil to the depth [stackpos - depth - 1]. *)
Theorem SDL_AppIterate_yield_below_marker
  (g : app_globals) (p : Process) (nres : Z) (L' : lua_State) :
  LUA_VERSION_NUM b < 504 ->
  luax_resume rt (L g) 0 = (LUA_YIELD, nres, L') ->
  lua_gettop L' < stackpos g ->
  exists g' : app_globals,
    SDL_AppIterate b rt g p = Done (SDL_APP_CONTINUE, g') p /\
    L g' = lua_settop L' (stackpos g - lua_gettop L' - 1) /\
    lua_gettop (L g') = stackpos g - lua_gettop L' - 1.
Proof.
  intros Hver Hres Hlow. unfold SDL_AppIterate. rewrite Hres.
  cbn [Z.eqb LUA_YIELD Pos.eqb].
  destruct (Z.leb_spec 504 (LUA_VERSION_NUM b)); [lia|].
  eexists. split; [reflexivity|]. cbn [L]. unfold lua_pop.
  replace (- (lua_gettop L' - stackpos g) - 1)
    with (stackpos g - lua_gettop L' - 1) by lia.
  split; [reflexivity|].
  unfold lua_settop.
  destruct (Z.leb_spec 0 (stackpos g - lua_gettop L' - 1)); [|lia].
  unfold lua_gettop in *. cbn [stack with_stack].
  rewrite length_app, length_take, length_replicate. lia.
Qed.

(** X20.  In a build against Lua 5.4 or later [SDL_AppIterate] does not read the
    marker: two states that differ in [stackpos] only get the same answer
    and the same interpreter. *)
Theorem SDL_AppIterate_lua54_ignores_marker
  (L0 : lua_State) (m1 m2 : Z) (p : Process) :
  504 <= LUA_VERSION_NUM b ->
  exists (r : SDL_AppResult) (L' : lua_State),
    SDL_AppIterate b rt (mkGlobals L0 m1) p = Done (r, mkGlobals L' m1) p /\
    SDL_AppIterate b rt (mkGlobals L0 m2) p = Done (r, mkGlobals L' m2) p.
Proof.
  intros Hver. unfold SDL_AppIterate. cbn [L stackpos].
  destruct (luax_resume rt L0 0) as [[status nres] L'].
  destruct (Z.leb_spec 504 (LUA_VERSION_NUM b)); [|lia].
  destruct (status =? LUA_YIELD); eexists _, _; split; reflexivity.
Qed.

Lemma SDL_AppIterate_continue_inv (g g' : app_globals) (p p' : Process) :
  SDL_AppIterate b rt g p = Done (SDL_APP_CONTINUE, g') p' ->
  exists (nres : Z) (L' : lua_State),
    luax_resume rt (L g) 0 = (LUA_YIELD, nres, L').
Proof.
  unfold SDL_AppIterate.
  destruct (luax_resume rt (L g) 0) as [[status nres] L'].
  destruct (Z.eqb_spec status LUA_YIELD) as [->|Hne]; [eauto|].
  intros H. apply ret_Done in H as [E _]. apply (f_equal fst) in E.
  discriminate E.
Qed.

Lemma frame_keeps_stack (g g' : app_globals) (p p' : Process) :
  resume_keeps_stack rt ->
  stackpos g = lua_gettop (L g) ->
  SDL_AppIterate b rt g p = Done (SDL_APP_CONTINUE, g') p' ->
  stack (L g') = stack (L g) /\ stackpos g' = stackpos g /\ p' = p.
Proof.
  intros Hrt Hmark Hrun.
  destruct (SDL_AppIterate_continue_inv g g' p p' Hrun) as (nres & L' & Hres).
  destruct (Hrt _ _ _ Hres) as (above & Hstack & Hnres).
  destruct L' as [s h gl n]. cbn [stack] in Hstack. subst s.
  rewrite (SDL_AppIterate_yield_eq b rt g p nres (stack (L g)) above h gl n)
    in Hrun; auto.
  apply Done_inj in Hrun as [E <-]. apply (f_equal snd) in E. cbn [snd] in E.
  subst g'. cbn [L stackpos stack]. auto.
Qed.

(** X21.  Frame after frame: with a resume that yields its values on top of what
    it found, any number of calls of [SDL_AppIterate] answering
    [SDL_APP_CONTINUE] leave the stack [SDL_AppInit] built and the marker
    on its top. *)
Theorem frames_keep_booted_stack
  (argv : list string) (p p1 : Process) (g g' : app_globals) :
  resume_keeps_stack rt ->
  SDL_AppInit b rt argv p = Done (SDL_APP_CONTINUE, Some g) p1 ->
  frames b rt g g' ->
  stack (L g') = stack (L g) /\
  stackpos g' = stackpos g /\
  stackpos g' = lua_gettop (L g').
Proof.
  intros Hrt Hinit Hframes.
  apply SDL_AppInit_marker in Hinit as [Hmark _].
  induction Hframes as [g|g g1 g2 q q' Hstep _ IH]; [auto|].
  destruct (frame_keeps_stack g g1 q q' Hrt Hmark Hstep) as (Hs & Hm & _).
  assert (Hmark1 : stackpos g1 = lua_gettop (L g1)).
  { unfold lua_gettop in *. now rewrite Hs, Hm. }
  destruct (IH Hmark1) as (IH1 & IH2 & IH3).
  split; [congruence|]. split; [congruence|exact IH3].
Qed.

End Frames.

(** * The further properties on concrete runs *)

Section MoreRuns.

Import Scenario.

Lemma copy_arguments_without_psn_witness :
  copy_arguments 0 ["love"; "game"; "--console"] = ["love"; "game"; "--console"].
Proof.
  apply (copy_arguments_without_psn ["love"; "game"; "--console"]).
  repeat constructor.
Defined.

Lemma get_app_arguments_nothing_inserted_witness :
  get_app_arguments desktop (healthy resume_yield) ["love"; "-psn_0_1"; "game"] start
  = Done ["love"; "game"] (logged start [EvNewArgv ["love"; "game"]]).
Proof.
  apply (get_app_arguments_nothing_inserted desktop (healthy resume_yield)
           ["love"; "-psn_0_1"; "game"] start).
  left. split; reflexivity.
Defined.

Lemma get_app_arguments_bundled_witness :
  get_app_arguments macos bundled ["love"; "-psn_0_1"] start
  = Done ["love"; "game.love"; "--fused"]
         (logged start [EvNewArgv ["love"; "game.love"; "--fused"]]) /\
  get_app_arguments ios bundled ["love"] start
  = Done ["love"; "game.love"] (logged start [EvNewArgv ["love"; "game.love"]]).
Proof.
  split.
  - apply (get_app_arguments_bundled macos bundled "love" ["-psn_0_1"] start
             "game.love" true); [discriminate|].
    left. repeat split; reflexivity.
  - apply (get_app_arguments_bundled ios bundled "love" [] start
             "game.love" false); [discriminate|].
    right. repeat split; reflexivity.
Defined.

Lemma get_app_arguments_bundled_empty_vector_witness :
  get_app_arguments macos bundled [] start = Fault InvalidIterator start.
Proof.
  apply (get_app_arguments_bundled_empty_vector macos bundled start
           "game.love" true); [discriminate|].
  left. split; reflexivity.
Defined.

Lemma get_app_arguments_dropfile_asked_once_witness :
  get_app_arguments macos dropped ["love"] start
  = Done ["love"; "/tmp/game.love"]
         (mkProcess [EvNewArgv ["love"; "/tmp/game.love"]]
                    (Some "/tmp/game.love")) /\
  exists p2 : Process,
    get_app_arguments macos dropped_later ["love"]
      (mkProcess [EvNewArgv ["love"; "/tmp/game.love"]] (Some "/tmp/game.love"))
    = Done ["love"; "/tmp/game.love"] p2 /\
    dropfilestr p2 = Some "/tmp/game.love".
Proof.
  assert (Hrun : get_app_arguments macos dropped ["love"] start
                 = Done ["love"; "/tmp/game.love"]
                        (mkProcess [EvNewArgv ["love"; "/tmp/game.love"]]
                                   (Some "/tmp/game.love")))
    by (vm_compute; reflexivity).
  split; [exact Hrun|].
  exact (proj2 (proj2
    (get_app_arguments_dropfile_asked_once macos dropped dropped_later
       "love" [] [] start _ _
       eq_refl eq_refl eq_refl eq_refl eq_refl eq_refl Hrun))).
Defined.

Lemma love_preload_registers_loader_witness :
  love_preload opened "luaopen_love" "love"
  = mkState [VNumber 7]
      (<[0%nat := mkTable ∅ (<["love" := VCFunction "luaopen_love"]> ∅)]>
         (heap opened))
      (globals opened) 0.
Proof.
  apply (love_preload_registers_loader [VNumber 7] (heap opened) (globals opened)
           0%nat 1%nat 0%nat
           (mkTable ∅ {[ "preload" := VTable 0%nat ]}) empty_table
           "luaopen_love" "love");
    vm_compute; reflexivity.
Defined.

Lemma set_love_fields_installs_restart_witness :
  exists t' : table,
    set_love_fields (healthy resume_restart)
                    (mkState ([] ++ [VTable 0%nat]) {[ 0%nat := empty_table ]} ∅ 0)
                    (VariantValue (VString "saved"))
    = (mkState ([] ++ [VTable 0%nat]) (<[0%nat := t']> {[ 0%nat := empty_table ]}) ∅ 0,
       Variant_default) /\
    fetch "restart" (tfields t') = VString "saved".
Proof.
  destruct (set_love_fields_installs_restart (healthy resume_restart)
              [] 0%nat empty_table {[ 0%nat := empty_table ]} ∅ 0%nat
              (VariantValue (VString "saved")) (VString "saved"))
    as (t' & Hrun & Hrestart & _).
  - intros L0. reflexivity.
  - vm_compute. reflexivity.
  - exists t'. split; assumption.
Defined.

Lemma SDL_AppInit_failure_means_mismatch_witness :
  SDL_AppInit desktop older games start
  = Done (SDL_APP_FAILURE, None)
         (logged start [EvPrintf (mismatch_text "12.0" "11.5")]) /\
  strcmp "12.0" "11.5" <> 0.
Proof.
  assert (Hrun : SDL_AppInit desktop older games start
                 = Done (SDL_APP_FAILURE, None)
                        (logged start [EvPrintf (mismatch_text "12.0" "11.5")]))
    by (vm_compute; reflexivity).
  split; [exact Hrun|].
  exact (proj1 (SDL_AppInit_failure_means_mismatch desktop older games start
                  _ None Hrun)).
Defined.

Lemma SDL_AppInit_success_means_flag_witness :
  SDL_AppInit desktop (healthy resume_yield) ["love"; "--help"] start
  = Done (SDL_APP_SUCCESS, None) (logged start [EvPrintf usage]) /\
  exists a : string,
    ["love"; "--help"] !! 1%nat = Some a /\
    (strcmp a "--version" = 0 \/ strcmp a "--help" = 0) /\
    (cstring a -> a = "--version" \/ a = "--help").
Proof.
  assert (Hrun : SDL_AppInit desktop (healthy resume_yield) ["love"; "--help"] start
                 = Done (SDL_APP_SUCCESS, None) (logged start [EvPrintf usage]))
    by (vm_compute; reflexivity).
  split; [exact Hrun|].
  exact (proj2 (proj2 (SDL_AppInit_success_means_flag desktop
                         (healthy resume_yield) ["love"; "--help"] start
                         _ None Hrun))).
Defined.

Lemma SDL_AppQuit_after_early_exit_witness :
  SDL_AppInit desktop older ["love"; "--version"] start
  = Done (SDL_APP_FAILURE, None)
         (logged start [EvPrintf (mismatch_text "12.0" "11.5")]) /\
  SDL_AppQuit None SDL_APP_FAILURE
              (logged start [EvPrintf (mismatch_text "12.0" "11.5")])
  = Fault NullDereference
          (logged start [EvPrintf (mismatch_text "12.0" "11.5")]).
Proof.
  assert (Hrun : SDL_AppInit desktop older ["love"; "--version"] start
                 = Done (SDL_APP_FAILURE, None)
                        (logged start [EvPrintf (mismatch_text "12.0" "11.5")]))
    by (vm_compute; reflexivity).
  split; [exact Hrun|].
  destruct (SDL_AppQuit_after_early_exit desktop older ["love"; "--version"]
              start _ SDL_APP_FAILURE None Hrun)
    as [[Hr _]|(_ & _ & Hquit)]; [discriminate Hr|exact Hquit].
Defined.

Lemma SDL_AppInit_then_SDL_AppQuit_witness :
  SDL_AppInit macos (healthy resume_yield) games start
  = Done (SDL_APP_CONTINUE, Some booted)
         (logged start [EvMalloc true; EvNewState true;
                        EvNewArgv games; EvDeleteArgv]) /\
  exists (new_argv : list string) (p2 : Process),
    SDL_AppQuit (Some booted) SDL_APP_SUCCESS
      (logged start [EvMalloc true; EvNewState true;
                     EvNewArgv games; EvDeleteArgv])
    = Done tt p2 /\
    trace p2 = trace start ++ [EvMalloc true; EvNewState true]
                           ++ argv_events macos new_argv
                           ++ [EvLuaClose; EvFree].
Proof.
  assert (Hrun : SDL_AppInit macos (healthy resume_yield) games start
                 = Done (SDL_APP_CONTINUE, Some booted)
                        (logged start [EvMalloc true; EvNewState true;
                                       EvNewArgv games; EvDeleteArgv]))
    by (vm_compute; reflexivity).
  split; [exact Hrun|].
  destruct (SDL_AppInit_then_SDL_AppQuit macos (healthy resume_yield) games
              start _ booted SDL_APP_SUCCESS Hrun)
    as (new_argv & p2 & Hquit & _ & Htrace).
  exists new_argv, p2. split; assumption.
Defined.




Lemma SDL_AppInit_hands_over_marked_stack_witness :
  SDL_AppInit desktop (healthy resume_yield) games start
  = Done (SDL_APP_CONTINUE, Some booted)
         (logged start [EvMalloc true; EvNewState true]) /\
  stackpos booted = lua_gettop (L booted).
Proof.
  assert (Hrun : SDL_AppInit desktop (healthy resume_yield) games start
                 = Done (SDL_APP_CONTINUE, Some booted)
                        (logged start [EvMalloc true; EvNewState true]))
    by (vm_compute; reflexivity).
  split; [exact Hrun|].
  exact (proj1 (SDL_AppInit_hands_over_marked_stack desktop
                  (healthy resume_yield) games start _ booted Hrun)).
Defined.

Lemma SDL_AppIterate_yield_below_marker_witness :
  lua_gettop (with_stack (L booted) []) < stackpos booted /\
  exists g' : app_globals,
    SDL_AppIterate desktop (healthy resume_short) booted start
    = Done (SDL_APP_CONTINUE, g') start /\
    lua_gettop (L g') = 2.
Proof.
  split; [vm_compute; reflexivity|].
  destruct (SDL_AppIterate_yield_below_marker desktop (healthy resume_short)
              booted start 0 (with_stack (L booted) []))
    as (g' & Hrun & _ & Htop).
  - vm_compute. reflexivity.
  - reflexivity.
  - vm_compute. reflexivity.
  - exists g'. split; [exact Hrun|]. rewrite Htop. vm_compute. reflexivity.
Defined.

Lemma SDL_AppIterate_lua54_ignores_marker_witness :
  exists (r : SDL_AppResult) (L' : lua_State),
    SDL_AppIterate lua54 (healthy resume_yield) (mkGlobals (L booted) 3) start
    = Done (r, mkGlobals L' 3) start /\
    SDL_AppIterate lua54 (healthy resume_yield) (mkGlobals (L booted) 0) start
    = Done (r, mkGlobals L' 0) start.
Proof.
  apply (SDL_AppIterate_lua54_ignores_marker lua54 (healthy resume_yield)
           (L booted) 3 0 start).
  vm_compute. discriminate.
Defined.

Lemma resume_yield_keeps_stack : resume_keeps_stack (healthy resume_yield).
Proof.
  intros L0 L' nres H. cbn in H. unfold resume_yield in H.
  exists [VNumber 1; VNumber 2].
  injection H as <- <-. split; reflexivity.
Defined.

Lemma frames_keep_booted_stack_witness :
  resume_keeps_stack (healthy resume_yield) /\
  frames desktop (healthy resume_yield) booted booted /\
  stackpos booted = lua_gettop (L booted).
Proof.
  assert (Hrun : SDL_AppInit desktop (healthy resume_yield) games start
                 = Done (SDL_APP_CONTINUE, Some booted)
                        (logged start [EvMalloc true; EvNewState true]))
    by (vm_compute; reflexivity).
  assert (Hstep : SDL_AppIterate desktop (healthy resume_yield) booted start
                  = Done (SDL_APP_CONTINUE, booted) start)
    by (vm_compute; reflexivity).
  assert (Hframes : frames desktop (healthy resume_yield) booted booted)
    by exact (frames_step _ _ _ _ _ _ _ Hstep (frames_refl _ _ _)).
  split; [exact resume_yield_keeps_stack|]. split; [exact Hframes|].
  exact (proj2 (proj2 (frames_keep_booted_stack desktop (healthy resume_yield)
                         games start _ booted booted
                         resume_yield_keeps_stack Hrun Hframes))).
Defined.

End MoreRuns.
